(** * Navigation: the minimal-action reducer and [linkTo]

    A shallow embedding of [src/libs/Navigation/linkTo.ts]:
    [getMinimalAction], [isModalNavigator] and [linkTo], together with the
    part of the React Navigation data model they read (navigation states,
    routes, actions), and the properties the specification states about
    them. *)

From Stdlib Require Import String List ZArith Bool Lia.
From Equations Require Import Equations.
Import ListNotations.
Open Scope string_scope.
Open Scope list_scope.
Set Warnings "-register-all".

(** ** JavaScript values

    [params] of an action payload is typed [unknown] in the source, and the
    loop of [getMinimalAction] re-reads it one level deeper at every turn, so
    payloads are kept as JavaScript values.  An object is its list of own
    properties in insertion order; the first binding of a key is the one a
    read sees. *)

Inductive JSValue : Type :=
| JUndefined
| JNull
| JBool (b : bool)
| JNumber (n : Z)
| JString (s : string)
| JObject (props : list (string * JSValue)).

Definition JSObject : Type := list (string * JSValue).

(** [o.k] on an object: the value bound to [k], [undefined] when absent. *)
Fixpoint getProp (k : string) (o : JSObject) : JSValue :=
  match o with
  | [] => JUndefined
  | (k', v) :: o' => if String.eqb k k' then v else getProp k o'
  end.

(** ['k' in o]: true also when the key is bound to [undefined]. *)
Fixpoint hasProp (k : string) (o : JSObject) : bool :=
  match o with
  | [] => false
  | (k', _) :: o' => String.eqb k k' || hasProp k o'
  end.

(** [v?.k] for the keys read here ([screen], [params], [path]): [undefined]
    and [null] short-circuit, and no primitive carries such a property. *)
Definition optProp (k : string) (v : JSValue) : JSValue :=
  match v with
  | JObject o => getProp k o
  | _ => JUndefined
  end.

(** [s === v] where the left operand has type [string | undefined]
    ([None] is [undefined]).  Every strict comparison of the source has such
    an operand on one side. *)
Definition strictEqStr (s : option string) (v : JSValue) : bool :=
  match s, v with
  | None, JUndefined => true
  | Some a, JString b => String.eqb a b
  | _, _ => false
  end.

Definition ofOptString (s : option string) : JSValue :=
  match s with
  | Some a => JString a
  | None => JUndefined
  end.

(** A completion of a JavaScript call: it returns, or it throws. *)
Inductive JSError : Type :=
| TypeError
| Error (message : string).

Inductive Completion (A : Type) : Type :=
| Returned (a : A)
| Thrown (e : JSError).
Arguments Returned {A} a.
Arguments Thrown {A} e.

(** ** Navigation states, routes and actions

    [NavigationState | PartialState<NavigationState>]: [index] and [key] are
    optional in a partial state, and a route carries an optional nested
    state. *)

Inductive NavigationState : Type := mkState {
  routes : list Route;
  index : option Z;
  key : option string }
with Route : Type := mkRoute {
  name : string;
  routeKey : option string;
  params : JSValue;
  state : option NavigationState }.

(** [NavigationAction]: [{type, payload?, source?, target?}]. *)
Record NavigationAction : Type := mkAction {
  type : string;
  payload : option JSObject;
  source : option string;
  target : option string }.

(** [arr[i]] for a number [i]: [undefined] outside [0 .. length-1], so also
    at [-1]. *)
Definition at_index {A : Type} (arr : list A) (i : Z) : option A :=
  if (i <? 0)%Z then None else nth_error arr (Z.to_nat i).

(** [arr.at(-1)]: the last element, [undefined] on the empty array. *)
Definition at_last {A : Type} (arr : list A) : option A :=
  match arr with
  | [] => None
  | x :: arr' => Some (last arr' x)
  end.

(** [currentState.routes[currentState.index ?? -1]] *)
Definition activeRoute (currentState : NavigationState) : option Route :=
  at_index (routes currentState)
           (match index currentState with Some i => i | None => (-1)%Z end).

(** The nesting depth of a state, the measure of the descent. *)
Fixpoint height (s : NavigationState) : nat :=
  match s with
  | mkState rs _ _ =>
      S (list_max (map (fun r => match r with
                                 | mkRoute _ _ _ (Some s') => height s'
                                 | mkRoute _ _ _ None => 0
                                 end) rs))
  end.

(** ** getMinimalAction *)

(** The "new smaller action" built on lines 46-54: the payload is the triple
    read off [payload.params], [source] is not carried over. *)
Definition smallerPayload (p : JSObject) : JSObject :=
  [ ("name", optProp "screen" (getProp "params" p));
    ("params", optProp "params" (getProp "params" p));
    ("path", optProp "path" (getProp "params" p)) ].

Definition smallerAction (currentAction : NavigationAction) (p : JSObject)
    (currentTargetKey : option string) : NavigationAction :=
  {| type := type currentAction;
     payload := Some (smallerPayload p);
     source := None;
     target := currentTargetKey |}.

(** One evaluation of the loop condition (line 35) and, when it holds, of the
    body (lines 36-54).  [currentState] is never [undefined] in the loop:
    line 40 assigns it a nested state that line 36 has just found present. *)
Inductive Iteration : Type :=
| Break
| Raise (e : JSError)
| Continue (currentAction : NavigationAction) (currentState : NavigationState).

Definition iteration (currentAction : NavigationAction)
    (currentState : NavigationState) : Iteration :=
  match payload currentAction with
  | None => Break
  | Some p =>
      if negb (hasProp "name" p) then Break
      else
        match activeRoute currentState with
        | None => Raise TypeError
        | Some r =>
            if negb (strictEqStr (Some (name r)) (getProp "name" p)) then Break
            else
              match state r with
              | None => Break
              | Some nested =>
                  Continue (smallerAction currentAction p (key nested)) nested
              end
        end
  end.

Definition inspect {A : Type} (a : A) : {b : A | a = b} := exist _ a eq_refl.

(** The [while] loop of lines 35-55 and the [return] of line 56.  Each turn
    moves into the nested state of a route of the current state, so the
    recursion is on [height]. *)
Equations? getMinimalAction (action : NavigationAction)
    (state : NavigationState) : Completion NavigationAction
  by wf (height state) lt :=
  getMinimalAction currentAction currentState
    with inspect (iteration currentAction currentState) := {
    | exist _ Break _ => Returned currentAction
    | exist _ (Raise e) _ => Thrown e
    | exist _ (Continue smaller nested) _ => getMinimalAction smaller nested }.
Proof.
  clear getMinimalAction.
  match goal with H : iteration _ _ = Continue _ _ |- _ => revert H end.
  unfold iteration.
  destruct (payload currentAction) as [p|]; [|discriminate].
  destruct (negb (hasProp "name" p)); [discriminate|].
  destruct (activeRoute currentState) as [r|] eqn:Hr; [|discriminate].
  destruct (negb _); [discriminate|].
  destruct (state r) as [n|] eqn:Hs; [|discriminate].
  intros [= _ <-].
  destruct currentState as [rs i k]. unfold activeRoute, at_index in Hr.
  cbn [routes index] in Hr. destruct (_ <? 0)%Z; [discriminate|].
  apply nth_error_In in Hr. cbn [height]. apply -> Nat.succ_le_mono.
  induction rs as [|r0 rs IH]; [contradiction|].
  simpl. destruct Hr as [->|Hin].
  - destruct r as [rn rk rp ro]. simpl in Hs. subst ro. lia.
  - specialize (IH Hin). lia.
Qed.

(** ** The navigation object and the effects of [linkTo]

    A navigation object answers [getParent()], [getState()] and
    [getRootState()]; the chain of parents is finite.  [getState()] is read
    through [?.] in the source, so it may be absent. *)

Inductive Navigation : Type := mkNavigation {
  getParent : option Navigation;
  getState : option NavigationState;
  getRootState : NavigationState }.

(** The calls [linkTo] makes on its collaborators, in the order made. *)
Inductive Event : Type :=
| GetParent
| GetState
| GetStateFromPath (path : string)
| GetActionFromState (state : NavigationState)
| DismissModal (targetReportID : string)
| GetRootState
| Dispatch (action : NavigationAction)
| Reset (state : NavigationState).

(** A computation: the calls it made, and how it completed. *)
Definition Eff (A : Type) : Type := (list Event * Completion A)%type.

Definition ret {A : Type} (a : A) : Eff A := ([], Returned a).

Definition throw {A : Type} (e : JSError) : Eff A := ([], Thrown e).

Definition bind {A B : Type} (m : Eff A) (f : A -> Eff B) : Eff B :=
  match m with
  | (t, Returned a) => let (t', c) := f a in (t ++ t', c)
  | (t, Thrown e) => (t, Thrown e)
  end.

(** A call on a collaborator that returns [a]. *)
Definition call {A : Type} (ev : Event) (a : A) : Eff A := ([ev], Returned a).

(** A callee's completion, as the caller sees it. *)
Definition lift {A : Type} (c : Completion A) : Eff A := ([], c).

Notation "x <- m ;; k" := (bind m (fun x => k))
  (at level 61, m at next level, right associativity).
Notation "' pat <- m ;; k" := (bind m (fun x => match x with pat => k end))
  (at level 61, pat pattern, m at next level, right associativity).

Definition trace {A : Type} (m : Eff A) : list Event := fst m.
Definition completion {A : Type} (m : Eff A) : Completion A := snd m.

Definition isDismissModal (ev : Event) : bool :=
  match ev with DismissModal _ => true | _ => false end.
Definition isDispatch (ev : Event) : bool :=
  match ev with Dispatch _ => true | _ => false end.
Definition isReset (ev : Event) : bool :=
  match ev with Reset _ => true | _ => false end.

(** How often a kind of call occurs in a trace. *)
Definition calls (kind : Event -> bool) (t : list Event) : nat :=
  length (filter kind t).

(** Lines 71-75: climb [getParent()] until it answers nothing. *)
Fixpoint getRoot (root : Navigation) : Eff Navigation :=
  match getParent root with
  | Some current => _ <- call GetParent tt ;; getRoot current
  | None => call GetParent root
  end.

Definition setType (action : NavigationAction) (t : string)
  : NavigationAction :=
  {| type := t;
     payload := payload action;
     source := source action;
     target := target action |}.

(** [type === c] for the optional [type] argument of [linkTo]. *)
Definition hintIs (typeHint : option string) (c : string) : bool :=
  match typeHint with
  | Some t => String.eqb t c
  | None => false
  end.

(** [!isActiveRoute] for the optional boolean argument. *)
Definition notActive (isActiveRoute : option bool) : bool :=
  match isActiveRoute with
  | Some true => false
  | _ => true
  end.

(** [CONST.NAVIGATION.ACTION_TYPE], [CONST.NAVIGATION.TYPE] and [NAVIGATORS]
    are declared in files that are not at hand: the strings are parameters. *)
Record Constants : Type := {
  ACTION_TYPE_NAVIGATE : string;
  ACTION_TYPE_PUSH : string;
  ACTION_TYPE_REPLACE : string;
  TYPE_FORCED_UP : string;
  TYPE_UP : string;
  CENTRAL_PANE_NAVIGATOR : string;
  LEFT_MODAL_NAVIGATOR : string;
  RIGHT_MODAL_NAVIGATOR : string }.

(** The collaborators imported by [linkTo.ts]: [getStateFromPath],
    [getActionFromState] (with the linking configuration applied),
    [getTopmostReportId], and [dismissModal], which is given as the
    navigation object later reads see once it has run. *)
Record Collaborators : Type := {
  getStateFromPath : string -> NavigationState;
  getActionFromState : NavigationState -> option NavigationAction;
  getTopmostReportId : option NavigationState -> option string;
  dismissModal : string -> Navigation -> Navigation }.

Definition optStringEqb (a b : option string) : bool :=
  match a, b with
  | Some x, Some y => String.eqb x y
  | None, None => true
  | _, _ => false
  end.

(** Line 83: [rootState?.routes?.at(-1)?.name]. *)
Definition topRouteName (rootState : option NavigationState) : option string :=
  match rootState with
  | Some rs => option_map name (at_last (routes rs))
  | None => None
  end.

Section LinkTo.

Variable K : Constants.
Variable E : Collaborators.

(** Lines 59-61. *)
Definition isModalNavigator (targetNavigator : JSValue) : bool :=
  strictEqStr (Some (LEFT_MODAL_NAVIGATOR K)) targetNavigator
  || strictEqStr (Some (RIGHT_MODAL_NAVIGATOR K)) targetNavigator.

(** Lines 82-106: the rewrite of [action.type] for a resolved action.  The
    result pairs the action with the navigation object as it reads
    afterwards. *)
Definition overrideType (navigation : Navigation)
    (rootState : option NavigationState) (state : NavigationState)
    (typeHint : option string) (action : NavigationAction)
  : Eff (NavigationAction * Navigation) :=
  if negb (String.eqb (type action) (ACTION_TYPE_NAVIGATE K))
  then ret (action, navigation)
  else
    match payload action with
    | None => throw TypeError
    | Some p =>
        let topRouteName := topRouteName rootState in
        let isTargetNavigatorOnTop :=
          strictEqStr topRouteName (getProp "name" p) in
        if hintIs typeHint (TYPE_FORCED_UP K) then
          ret (setType action (ACTION_TYPE_REPLACE K), navigation)
        else if strictEqStr (Some (CENTRAL_PANE_NAVIGATOR K)) (getProp "name" p)
                && negb (optStringEqb (getTopmostReportId E rootState)
                                      (getTopmostReportId E (Some state))) then
          ret (setType action (ACTION_TYPE_PUSH K), navigation)
        else if hintIs typeHint (TYPE_UP K) then
          ret (setType action (ACTION_TYPE_REPLACE K), navigation)
        else if isModalNavigator (getProp "name" p)
                && negb isTargetNavigatorOnTop then
          navigation' <-
            (if isModalNavigator (ofOptString topRouteName)
             then call (DismissModal "") (dismissModal E "" navigation)
             else ret navigation) ;;
          ret (setType action (ACTION_TYPE_PUSH K), navigation')
        else ret (action, navigation)
    end.

(** The guard of line 108 on a resolved action. *)
Definition targetsModalNavigator (action : NavigationAction) : bool :=
  match payload action with
  | Some p => hasProp "name" p && isModalNavigator (getProp "name" p)
  | None => false
  end.

(** Lines 114-121: the two forcing rules on the minimal action. *)
Definition forceType (typeHint : option string) (isActiveRoute : option bool)
    (minimalAction : NavigationAction) : NavigationAction :=
  let minimalAction :=
    if notActive isActiveRoute && hintIs typeHint (ACTION_TYPE_PUSH K)
    then setType minimalAction (ACTION_TYPE_PUSH K) else minimalAction in
  if hintIs typeHint (ACTION_TYPE_REPLACE K)
  then setType minimalAction (ACTION_TYPE_REPLACE K) else minimalAction.

(** Lines 108-131.  [getMinimalAction] returns an object, so the test of
    line 110 holds whenever it is reached. *)
Definition dispatchOrReset (navigation : Navigation) (state : NavigationState)
    (typeHint : option string) (isActiveRoute : option bool)
    (action : option NavigationAction) : Eff unit :=
  match action with
  | Some action =>
      if targetsModalNavigator action then
        rootState <- call GetRootState (getRootState navigation) ;;
        minimalAction <- lift (getMinimalAction action rootState) ;;
        call (Dispatch (forceType typeHint isActiveRoute minimalAction)) tt
      else call (Dispatch action) tt
  | None => call (Reset state) tt
  end.

(** The message of the error thrown on line 65. *)
Definition noNavigationMessage : string :=
  ("Couldn't find a navigation object. " ++
   "Is your component inside a screen in a navigator?")%string.

(** Lines 63-132. *)
Definition linkTo (navigation : option Navigation) (path : string)
    (typeHint : option string) (isActiveRoute : option bool) : Eff unit :=
  match navigation with
  | None =>
      throw (Error noNavigationMessage)
  | Some navigation =>
      root <- getRoot navigation ;;
      rootState <- call GetState (getState root) ;;
      state <- call (GetStateFromPath path) (getStateFromPath E path) ;;
      action <- call (GetActionFromState state) (getActionFromState E state) ;;
      match action with
      | Some resolved =>
          '(action, navigation) <-
            overrideType navigation rootState state typeHint resolved ;;
          dispatchOrReset navigation state typeHint isActiveRoute (Some action)
      | None =>
          dispatchOrReset navigation state typeHint isActiveRoute None
      end
  end.

End LinkTo.

(** ** Vocabulary of the properties *)

(** The payload at a level of the action's chain: level 0 is the payload
    itself, every deeper level is the triple read off [params] one level
    up. *)
Definition payloadAt (level : nat) (p : JSObject) : JSObject :=
  Nat.iter level smallerPayload p.

(** [params] read [level] times off the payload: [payload.params], then
    [payload.params.params], and so on; a read off a value that is no object
    gives [undefined], as [?.] does. *)
Definition paramsAt (level : nat) (p : JSObject) : JSValue :=
  Nat.iter level (optProp "params") (JObject p).

(** The action's name chain: [payload.name], then [params.screen] at each
    deeper level. *)
Definition nameAt (level : nat) (p : JSObject) : JSValue :=
  match level with
  | 0 => getProp "name" p
  | S _ => optProp "screen" (paramsAt level p)
  end.

(** The node reached after [k] descents along the active branch. *)
Fixpoint nodeAt (k : nat) (tree : NavigationState) : option NavigationState :=
  match k with
  | 0 => Some tree
  | S k' =>
      match activeRoute tree with
      | Some r =>
          match state r with
          | Some nested => nodeAt k' nested
          | None => None
          end
      | None => None
      end
  end.

(** The loop, started on [a0] and [s0], comes to evaluate its condition on
    [a] and [s]. *)
Inductive reaches (a0 : NavigationAction) (s0 : NavigationState)
  : NavigationAction -> NavigationState -> Prop :=
| reaches_start : reaches a0 s0 a0 s0
| reaches_turn a s a' s' :
    reaches a0 s0 a s -> iteration a s = Continue a' s' -> reaches a0 s0 a' s'.

(** The three ways the loop ends on an action and a state. *)
Definition lacksName (a : NavigationAction) : Prop :=
  match payload a with
  | Some p => hasProp "name" p = false
  | None => True
  end.

Definition nameDiffers (a : NavigationAction) (s : NavigationState) : Prop :=
  exists p r, payload a = Some p /\ hasProp "name" p = true /\
              activeRoute s = Some r /\ getProp "name" p <> JString (name r).

Definition noNestedState (a : NavigationAction) (s : NavigationState) : Prop :=
  exists p r, payload a = Some p /\ activeRoute s = Some r /\
              getProp "name" p = JString (name r) /\ state r = None.

(** Every node the descent passes through has a route at its index. *)
Inductive activeBranchIndexed : NavigationState -> Prop :=
| indexed_leaf s r :
    activeRoute s = Some r -> state r = None -> activeBranchIndexed s
| indexed_node s r nested :
    activeRoute s = Some r -> state r = Some nested ->
    activeBranchIndexed nested -> activeBranchIndexed s.

(** The root that lines 71-75 reach, and the calls they make. *)
Fixpoint rootOf (navigation : Navigation) : Navigation :=
  match getParent navigation with
  | Some current => rootOf current
  | None => navigation
  end.

Fixpoint parentCalls (navigation : Navigation) : list Event :=
  match getParent navigation with
  | Some current => GetParent :: parentCalls current
  | None => [GetParent]
  end.

(** [m], run after the calls [t]. *)
Definition after {A : Type} (t : list Event) (m : Eff A) : Eff A :=
  (t ++ fst m, snd m).

(** The calls made before line 82: the climb to the root, the read of its
    state, the parse of the path and the resolution of the action. *)
Definition reads (E : Collaborators) (navigation : Navigation) (path : string)
  : list Event :=
  parentCalls navigation ++
  [ GetState; GetStateFromPath path;
    GetActionFromState (getStateFromPath E path) ].

(** ** Example states, actions and collaborators *)

(** Values for the constants, for the examples: each string spells the name
    of its constant. *)
Definition appConstants : Constants :=
  {| ACTION_TYPE_NAVIGATE := "NAVIGATE";
     ACTION_TYPE_PUSH := "PUSH";
     ACTION_TYPE_REPLACE := "REPLACE";
     TYPE_FORCED_UP := "FORCED_UP";
     TYPE_UP := "UP";
     CENTRAL_PANE_NAVIGATOR := "CentralPaneNavigator";
     LEFT_MODAL_NAVIGATOR := "LeftModalNavigator";
     RIGHT_MODAL_NAVIGATOR := "RightModalNavigator" |}.

Definition leaf (n : string) : Route :=
  {| name := n; routeKey := Some (n ++ "-key")%string; params := JUndefined;
     state := None |}.

(** A settings flow open in the right modal: root > RightModalNavigator >
    Settings > Settings_Root. *)
Definition settingsStack : NavigationState :=
  {| routes := [leaf "Settings_Root"]; index := Some 0%Z;
     key := Some "stack-settings" |}.

Definition rightModalStack : NavigationState :=
  {| routes := [ {| name := "Settings"; routeKey := Some "Settings-key";
                    params := JUndefined; state := Some settingsStack |} ];
     index := Some 0%Z; key := Some "stack-rhp" |}.

Definition rootWithRightModal : NavigationState :=
  {| routes := [ leaf "Home";
                 {| name := "RightModalNavigator"; routeKey := Some "rhp-key";
                    params := JUndefined; state := Some rightModalStack |} ];
     index := Some 1%Z; key := Some "root" |}.

(** The action [getActionFromState] gives for a path into the settings
    flow: RightModalNavigator > Settings > Settings_Profile. *)
Definition profilePayload : JSObject :=
  [ ("name", JString "RightModalNavigator");
    ("params",
     JObject [ ("screen", JString "Settings");
               ("params",
                JObject [ ("screen", JString "Settings_Profile");
                          ("path", JString "settings/profile") ]);
               ("path", JString "settings/profile") ]) ].

Definition profileAction : NavigationAction :=
  {| type := "NAVIGATE"; payload := Some profilePayload; source := None;
     target := None |}.

Definition minimalProfileAction : NavigationAction :=
  {| type := "NAVIGATE";
     payload := Some [ ("name", JString "Settings_Profile");
                       ("params", JUndefined);
                       ("path", JString "settings/profile") ];
     source := None;
     target := Some "stack-settings" |}.

(** A tree whose active top-level route is Home. *)
Definition rootAtHome : NavigationState :=
  {| routes := [ leaf "Home" ]; index := Some 0%Z; key := Some "root" |}.

(** The partial state [getStateFromPath] gives for "settings/profile". *)
Definition profileState : NavigationState :=
  {| routes :=
       [ {| name := "RightModalNavigator"; routeKey := None;
            params := JUndefined;
            state := Some
              {| routes :=
                   [ {| name := "Settings"; routeKey := None;
                        params := JUndefined;
                        state := Some
                          {| routes :=
                               [ {| name := "Settings_Profile";
                                    routeKey := None; params := JUndefined;
                                    state := None |} ];
                             index := None; key := None |} |} ];
                 index := None; key := None |} |} ];
     index := None; key := None |}.

(** The navigation container of a root state, and the navigation object of
    a screen inside it. *)
Definition containerOf (root : NavigationState) : Navigation :=
  {| getParent := None; getState := Some root; getRootState := root |}.

Definition screenIn (root : NavigationState) : Navigation :=
  {| getParent := Some (containerOf root); getState := Some root;
     getRootState := root |}.

(** [dismissModal] pops the topmost root route. *)
Definition popTop (root : NavigationState) : NavigationState :=
  {| routes := removelast (routes root);
     index := Some (Z.of_nat (length (removelast (routes root))) - 1)%Z;
     key := key root |}.

Definition dismissed (navigation : Navigation) : Navigation :=
  {| getParent := getParent navigation;
     getState := option_map popTop (getState navigation);
     getRootState := popTop (getRootState navigation) |}.

(** Collaborators that parse every path to [parsed] and resolve it to
    [resolved]; the report on top is 42 in a live state (one with a key) and
    99 in a parsed one. *)
Definition collaborators (parsed : NavigationState)
    (resolved : option NavigationAction) : Collaborators :=
  {| getStateFromPath := fun _ => parsed;
     getActionFromState := fun _ => resolved;
     getTopmostReportId := fun st =>
       match st with
       | Some s => match key s with Some _ => Some "42" | None => Some "99" end
       | None => None
       end;
     dismissModal := fun _ navigation => dismissed navigation |}.

(** The collaborators for the path "settings/profile", resolved or not. *)
Definition profileLinks : Collaborators :=
  collaborators profileState (Some profileAction).

Definition unresolvedLinks : Collaborators :=
  collaborators profileState None.

(** A report opened in the central pane: the partial state parsed from
    "r/99" and the action resolved from it. *)
Definition reportState : NavigationState :=
  {| routes :=
       [ {| name := "CentralPaneNavigator"; routeKey := None;
            params := JUndefined;
            state := Some
              {| routes :=
                   [ {| name := "Report"; routeKey := None;
                        params := JObject [ ("reportID", JString "99") ];
                        state := None |} ];
                 index := None; key := None |} |} ];
     index := None; key := None |}.

Definition reportPayload : JSObject :=
  [ ("name", JString "CentralPaneNavigator");
    ("params", JObject [ ("screen", JString "Report");
                         ("params", JObject [ ("reportID", JString "99") ]);
                         ("path", JString "r/99") ]) ].

Definition reportAction : NavigationAction :=
  {| type := "NAVIGATE"; payload := Some reportPayload; source := None;
     target := None |}.

Definition reportLinks : Collaborators :=
  collaborators reportState (Some reportAction).

(** The left modal open on top of Home. *)
Definition rootWithLeftModal : NavigationState :=
  {| routes := [ leaf "Home"; leaf "LeftModalNavigator" ];
     index := Some 1%Z; key := Some "root" |}.

(** The right modal open with a nested state that is still partial: it has
    no [index]. *)
Definition rootWithPartialModal : NavigationState :=
  {| routes :=
       [ leaf "Home";
         {| name := "RightModalNavigator"; routeKey := Some "rhp-key";
            params := JUndefined;
            state := Some {| routes := [ leaf "Settings" ]; index := None;
                             key := None |} |} ];
     index := Some 1%Z; key := Some "root" |}.

(** ** Further vocabulary and examples *)

(** The nested state of the modal route of [rootWithPartialModal]: a partial
    state, with no [index] and no [key], whose only and last route is
    Settings. *)
Definition partialModalStack : NavigationState :=
  {| routes := [ leaf "Settings" ]; index := None; key := None |}.

(** Two trees with the same active branch: at every level either both have
    no route at their index, or the routes there bear the same name and
    nest, or not, states of the same key that are alike in turn.  The routes
    off the branch, the keys and params of routes and the key of the root
    are free. *)
Inductive sameActiveBranch : NavigationState -> NavigationState -> Prop :=
| same_unindexed s s' :
    activeRoute s = None -> activeRoute s' = None -> sameActiveBranch s s'
| same_leaf s s' r r' :
    activeRoute s = Some r -> activeRoute s' = Some r' -> name r = name r' ->
    state r = None -> state r' = None -> sameActiveBranch s s'
| same_node s s' r r' n n' :
    activeRoute s = Some r -> activeRoute s' = Some r' -> name r = name r' ->
    state r = Some n -> state r' = Some n' -> key n = key n' ->
    sameActiveBranch n n' -> sameActiveBranch s s'.

(** The payload the loop builds from a payload without nested params. *)
Definition emptyPayload : JSObject :=
  [ ("name", JUndefined); ("params", JUndefined); ("path", JUndefined) ].

(** The right modal open on a search page: root > RightModalNavigator >
    Search. *)
Definition rootWithSearchModal : NavigationState :=
  {| routes :=
       [ leaf "Home";
         {| name := "RightModalNavigator"; routeKey := Some "rhp-key";
            params := JUndefined;
            state := Some {| routes := [ leaf "Search" ]; index := Some 0%Z;
                             key := Some "stack-rhp" |} |} ];
     index := Some 1%Z; key := Some "root" |}.

(** An action that names the right modal and nothing below it. *)
Definition bareModalAction : NavigationAction :=
  {| type := "NAVIGATE";
     payload := Some [ ("name", JString "RightModalNavigator") ];
     source := Some "screen-key"; target := None |}.

(** The tree of [rootWithRightModal] with other routes beside the modal, and
    other keys on the root and on the modal route. *)
Definition rootWithRightModalAfterSearch : NavigationState :=
  {| routes := [ leaf "Home"; leaf "Search";
                 {| name := "RightModalNavigator"; routeKey := Some "rhp-2";
                    params := JNull; state := Some rightModalStack |} ];
     index := Some 2%Z; key := Some "root-2" |}.

(** An action of another type than NAVIGATE, with no payload, and the
    collaborators that resolve every path to it. *)
Definition goBackAction : NavigationAction :=
  {| type := "GO_BACK"; payload := None; source := None; target := None |}.

Definition goBackLinks : Collaborators :=
  collaborators profileState (Some goBackAction).

(** ** Localize: list formats ([src/libs/Localize/index.ts])

    An object used as a table from strings: its bindings in insertion
    order, every key bound once.  [table[k] = v] rebinds [k] in place when it
    is bound and binds it last when it is not. *)

Fixpoint tableGet {V : Type} (k : string) (table : list (string * V))
  : option V :=
  match table with
  | [] => None
  | (k', v) :: rest => if String.eqb k k' then Some v else tableGet k rest
  end.

Fixpoint tableSet {V : Type} (k : string) (v : V) (table : list (string * V))
  : list (string * V) :=
  match table with
  | [] => [(k, v)]
  | (k', v') :: rest =>
      if String.eqb k k' then (k, v) :: rest
      else (k', v') :: tableSet k v rest
  end.

(** A part given by [Intl.ListFormat.prototype.formatToParts]:
    [{type, value}]. *)
Record ListPart : Type := {
  partType : string;
  partValue : string }.

(** What the file uses of an [Intl.ListFormat]. *)
Record ListFormat : Type := {
  format : list string -> string;
  formatToParts : list string -> list ListPart }.

(** What the list functions read from outside the file:
    [Object.values(CONST.LOCALES)], the two locales named on lines 36-38,
    and [new Intl.ListFormat(locale, {style: 'long', type: 'conjunction'})],
    which throws on a locale it does not support. *)
Record ListLocales : Type := {
  LOCALES : list string;
  LOCALES_ES_ES : string;
  LOCALES_ES_ES_ONFIDO : string;
  newListFormat : string -> Completion ListFormat }.

(** A callee's completion continued by the caller. *)
Definition andThen {A B : Type} (c : Completion A) (f : A -> Completion B)
  : Completion B :=
  match c with
  | Returned a => f a
  | Thrown e => Thrown e
  end.

(** Lines 33-46: the value [init] assigns to
    [CONJUNCTION_LIST_FORMATS_FOR_LOCALES]. *)
Definition init (L : ListLocales) : Completion (list (string * ListFormat)) :=
  fold_left
    (fun memo locale =>
       andThen memo (fun memo =>
         if String.eqb locale (LOCALES_ES_ES_ONFIDO L) then
           andThen (newListFormat L (LOCALES_ES_ES L)) (fun listFormat =>
             Returned (tableSet locale listFormat memo))
         else
           andThen (newListFormat L locale) (fun listFormat =>
             Returned (tableSet locale listFormat memo))))
    (LOCALES L) (Returned []).

(** Lines 211-217.  The state is [CONJUNCTION_LIST_FORMATS_FOR_LOCALES],
    unset until the first call; [preferredLocale] is what
    [BaseLocaleListener.getPreferredLocale()] answers.  The result pairs the
    state left with the list format found, if any. *)
Definition getPreferredListFormat (L : ListLocales)
    (formats : option (list (string * ListFormat))) (preferredLocale : string)
  : Completion (option (list (string * ListFormat)) * option ListFormat) :=
  andThen (match formats with
           | Some table => Returned table
           | None => init L
           end)
    (fun table => Returned (Some table, tableGet preferredLocale table)).

(** Lines 222-225. *)
Definition formatList (L : ListLocales)
    (formats : option (list (string * ListFormat))) (preferredLocale : string)
    (components : list string)
  : Completion (option (list (string * ListFormat)) * string) :=
  andThen (getPreferredListFormat L formats preferredLocale)
    (fun '(formats, listFormat) =>
       match listFormat with
       | Some listFormat => Returned (formats, format listFormat components)
       | None => Thrown TypeError
       end).

(** An entry of the array [formatMessageElementList] returns: one of the
    elements given, a text element [{kind: 'text', content}], or
    [undefined] when [elements] has no entry at the index read. *)
Inductive ResultElement (E : Type) : Type :=
| Given (element : E)
| TextElement (content : string)
| NoElement.
Arguments Given {E} element.
Arguments TextElement {E} content.
Arguments NoElement {E}.

(** Lines 232-250: the loop over the parts, with [resultElements] and
    [nextElementIndex] as its state. *)
Definition pushPart {E : Type} (elements : list E)
    (loopState : list (ResultElement E) * nat) (part : ListPart)
  : list (ResultElement E) * nat :=
  let (resultElements, nextElementIndex) := loopState in
  if String.eqb (partType part) "element" then
    (resultElements ++
     [ match nth_error elements nextElementIndex with
       | Some element => Given element
       | None => NoElement
       end ],
     S nextElementIndex)
  else (resultElements ++ [ TextElement (partValue part) ], nextElementIndex).

(** Lines 227-253, on elements of a type [E] with a [content]. *)
Definition formatMessageElementList {E : Type} (content : E -> string)
    (L : ListLocales) (formats : option (list (string * ListFormat)))
    (preferredLocale : string) (elements : list E)
  : Completion (option (list (string * ListFormat)) *
                list (ResultElement E)) :=
  andThen (getPreferredListFormat L formats preferredLocale)
    (fun '(formats, listFormat) =>
       match listFormat with
       | Some listFormat =>
           let parts := formatToParts listFormat (map content elements) in
           Returned (formats, fst (fold_left (pushPart elements) parts ([], 0)))
       | None => Thrown TypeError
       end).

(** The content of an entry, and the elements given among the entries. *)
Definition entryContent {E : Type} (content : E -> string)
    (entry : ResultElement E) : option string :=
  match entry with
  | Given element => Some (content element)
  | TextElement text => Some text
  | NoElement => None
  end.

Fixpoint givenElements {E : Type} (entries : list (ResultElement E)) : list E :=
  match entries with
  | [] => []
  | Given element :: rest => element :: givenElements rest
  | _ :: rest => givenElements rest
  end.

Definition isElementPart (part : ListPart) : bool :=
  String.eqb (partType part) "element".

(** An English list format for three-letter examples: "a, b and c". *)
Fixpoint andParts (components : list string) : list ListPart :=
  match components with
  | [] => []
  | [a] => [ {| partType := "element"; partValue := a |} ]
  | [a; b] =>
      [ {| partType := "element"; partValue := a |};
        {| partType := "literal"; partValue := " and " |};
        {| partType := "element"; partValue := b |} ]
  | a :: rest =>
      {| partType := "element"; partValue := a |} ::
      {| partType := "literal"; partValue := ", " |} :: andParts rest
  end.

Definition andFormat : ListFormat :=
  {| format := fun components =>
       String.concat "" (map partValue (andParts components));
     formatToParts := andParts |}.

(** Locales en, es, es-ES and es_ES, the last not supported by [Intl]. *)
Definition exampleLocales : ListLocales :=
  {| LOCALES := [ "en"; "es"; "es-ES"; "es_ES" ];
     LOCALES_ES_ES := "es-ES";
     LOCALES_ES_ES_ONFIDO := "es_ES";
     newListFormat := fun locale =>
       if String.eqb locale "es_ES"
       then Thrown (Error "Incorrect locale information provided")
       else Returned andFormat |}.

(** The entries the loop of [formatMessageElementList] pushes for [parts]
    when it starts with [nextElementIndex] at [i]. *)
Fixpoint entriesFrom {E : Type} (elements : list E) (parts : list ListPart)
    (i : nat) : list (ResultElement E) :=
  match parts with
  | [] => []
  | part :: rest =>
      if String.eqb (partType part) "element" then
        match nth_error elements i with
        | Some element => Given element
        | None => NoElement
        end :: entriesFrom elements rest (S i)
      else TextElement (partValue part) :: entriesFrom elements rest i
  end.

(** The locale whose list format [init] binds to a locale. *)
Definition listFormatLocale (L : ListLocales) (locale : string) : string :=
  if String.eqb locale (LOCALES_ES_ES_ONFIDO L) then LOCALES_ES_ES L
  else locale.

(** ** Localize: translated phrases ([src/libs/Localize/index.ts]) *)

(** [if (v)] on a JavaScript value. *)
Definition truthy (v : JSValue) : bool :=
  match v with
  | JUndefined | JNull => false
  | JBool b => b
  | JNumber n => negb (n =? 0)%Z
  | JString s => negb (String.eqb s "")
  | JObject _ => true
  end.

(** [s.includes(sub)] *)
Fixpoint includes (s sub : string) : bool :=
  String.prefix sub s
  || match s with
     | EmptyString => false
     | String _ rest => includes rest sub
     end.

(** An entry of the translations: a function of the phrase parameters, which
    returns or throws, or any other value ([undefined] when the entry is
    absent). *)
Inductive Phrase : Type :=
| PhraseValue (v : JSValue)
| PhraseFunction (f : list JSValue -> Completion JSValue).

(** What the translating functions read from outside the file:
    [translations?.[language]?.[phraseKey]], the [select] of
    [new Intl.PluralRules(language, {type: 'ordinal'})], which throws on a
    locale it does not support, the constants named on lines 166-197 and the
    flags of [Config]. *)
Record Phrases : Type := {
  translations : string -> string -> Phrase;
  newPluralRules : string -> Completion (Z -> string);
  LOCALE_DEFAULT : string;
  LOCALE_ES_ES : string;
  LOCALE_ES_ES_ONFIDO : string;
  IS_IN_PRODUCTION : bool;
  IS_IN_STAGING : bool;
  EXPENSIFY_EMAIL_DOMAIN : string;
  MISSING_TRANSLATION : string }.

(** [translationCache]: a map from locales to maps from phrase keys to
    translated values. *)
Definition TranslationCache : Type := list (string * list (string * JSValue)).

(** [translationCache.get(language)?.get(phraseKey)] *)
Definition cacheGet (cache : TranslationCache) (language phraseKey : string)
  : JSValue :=
  match tableGet language cache with
  | Some cacheForLocale =>
      match tableGet phraseKey cacheForLocale with
      | Some v => v
      | None => JUndefined
      end
  | None => JUndefined
  end.

(** [translationCache.get(language)?.set(phraseKey, v)] *)
Definition cacheSet (cache : TranslationCache) (language phraseKey : string)
    (v : JSValue) : TranslationCache :=
  match tableGet language cache with
  | Some cacheForLocale =>
      tableSet language (tableSet phraseKey v cacheForLocale) cache
  | None => cache
  end.

(** A run of a translating function: the messages given to [Log.alert], and
    the completion. *)
Definition Logged (A : Type) : Type := (list string * Completion A)%type.

(** Lines 117-153: the phrase in one language.  [None] stands for reaching
    line 155, the phrase not found. *)
Definition phraseIn (X : Phrases) (language phraseKey : string)
    (phraseParameters : list JSValue) (cache : TranslationCache)
  : Logged (TranslationCache * option JSValue) :=
  let valueFromCache := cacheGet cache language phraseKey in
  if truthy valueFromCache then ([], Returned (cache, Some valueFromCache))
  else
    match newPluralRules X language with
    | Thrown e => ([], Thrown e)
    | Returned select =>
        match translations X language phraseKey with
        | PhraseFunction translatedPhrase =>
            match translatedPhrase phraseParameters with
            | Returned v => ([], Returned (cache, Some v))
            | Thrown e => ([], Thrown e)
            end
        | PhraseValue translatedPhrase =>
            if truthy translatedPhrase then
              match translatedPhrase, nth_error phraseParameters 0 with
              | JObject pluralFormPhrase, Some (JNumber count) =>
                  let pluralForm := select count in
                  let pluralTranslatedPhrase :=
                    getProp pluralForm pluralFormPhrase in
                  if truthy pluralTranslatedPhrase
                  then ([], Returned (cache, Some pluralTranslatedPhrase))
                  else
                    ([ "Plural form " ++ pluralForm ++ " not found for " ++
                       phraseKey ++ " in " ++ language ]%string,
                     Returned (cache, Some (getProp "other" pluralFormPhrase)))
              | _, _ =>
                  ([],
                   Returned (cacheSet cache language phraseKey translatedPhrase,
                             Some translatedPhrase))
              end
            else ([], Returned (cache, None))
        end
    end.

(** Lines 110-157 with [fallbackLanguage] null, as the calls of lines 160
    and 171 have it. *)
Definition getTranslatedPhraseNoFallback (X : Phrases)
    (language phraseKey : string) (phraseParameters : list JSValue)
    (cache : TranslationCache) : Logged (TranslationCache * JSValue) :=
  match phraseIn X language phraseKey phraseParameters cache with
  | (alerts, Returned (cache, Some v)) => (alerts, Returned (cache, v))
  | (alerts, Returned (cache, None)) => (alerts, Returned (cache, JNull))
  | (alerts, Thrown e) => (alerts, Thrown e)
  end.

(** Lines 110-172. *)
Definition getTranslatedPhrase (X : Phrases) (language phraseKey : string)
    (fallbackLanguage : option string) (phraseParameters : list JSValue)
    (cache : TranslationCache) : Logged (TranslationCache * JSValue) :=
  match phraseIn X language phraseKey phraseParameters cache with
  | (alerts, Thrown e) => (alerts, Thrown e)
  | (alerts, Returned (cache, Some v)) => (alerts, Returned (cache, v))
  | (alerts, Returned (cache, None)) =>
      match fallbackLanguage with
      | None => (alerts, Returned (cache, JNull))
      | Some fallbackLanguage =>
          if String.eqb fallbackLanguage "" then
            (alerts, Returned (cache, JNull))
          else
            match getTranslatedPhraseNoFallback X fallbackLanguage phraseKey
                    phraseParameters cache with
            | (alerts2, Thrown e) => (alerts ++ alerts2, Thrown e)
            | (alerts2, Returned (cache, fallbackTranslatedPhrase)) =>
                if truthy fallbackTranslatedPhrase then
                  (alerts ++ alerts2,
                   Returned (cache, fallbackTranslatedPhrase))
                else
                  let alerts3 :=
                    if String.eqb fallbackLanguage (LOCALE_DEFAULT X) then []
                    else [ phraseKey ++ " was not found in the " ++
                           fallbackLanguage ++ " locale" ]%string in
                  let (alerts4, c) :=
                    getTranslatedPhraseNoFallback X (LOCALE_DEFAULT X)
                      phraseKey phraseParameters cache in
                  (alerts ++ alerts2 ++ alerts3 ++ alerts4, c)
            end
      end
  end.

(** Lines 180-202.  [userEmail] is the module variable of line 16. *)
Definition translate (X : Phrases) (userEmail : string)
    (desiredLanguage phraseKey : string) (phraseParameters : list JSValue)
    (cache : TranslationCache) : Logged (TranslationCache * JSValue) :=
  let language :=
    if String.eqb desiredLanguage (LOCALE_ES_ES_ONFIDO X) then LOCALE_ES_ES X
    else desiredLanguage in
  let languageAbbreviation := String.substring 0 2 desiredLanguage in
  match getTranslatedPhrase X language phraseKey (Some languageAbbreviation)
          phraseParameters cache with
  | (alerts, Thrown e) => (alerts, Thrown e)
  | (alerts, Returned (cache, translatedPhrase)) =>
      match translatedPhrase with
      | JNull | JUndefined =>
          if IS_IN_PRODUCTION X || IS_IN_STAGING X then
            (alerts ++ [ phraseKey ++ " was not found in the en locale" ]%string,
             Returned (cache,
                       JString (if includes userEmail (EXPENSIFY_EMAIL_DOMAIN X)
                                then MISSING_TRANSLATION X else phraseKey)))
          else
            (alerts,
             Thrown (Error (phraseKey ++
                            " was not found in the default language")))
      | _ => (alerts, Returned (cache, translatedPhrase))
      end
  end.

(** Every truthy value of the cache is the entry of the translations it
    stands for. *)
Definition coherent (X : Phrases) (cache : TranslationCache) : Prop :=
  forall language phraseKey,
    truthy (cacheGet cache language phraseKey) = true ->
    translations X language phraseKey
    = PhraseValue (cacheGet cache language phraseKey).

(** What a run for [phraseKey] may have changed from [cache] to [cache']:
    every entry is as it was, or is an entry of [phraseKey] that now holds
    the truthy value the translations have for it. *)
Definition writes (X : Phrases) (phraseKey : string)
    (cache cache' : TranslationCache) : Prop :=
  forall language k,
    cacheGet cache' language k = cacheGet cache language k \/
    (k = phraseKey /\
     translations X language phraseKey
     = PhraseValue (cacheGet cache' language k) /\
     truthy (cacheGet cache' language k) = true).

(** The alerts and the value of a run, the cache left aside. *)
Definition answer (run : Logged (TranslationCache * JSValue))
  : list string * Completion JSValue :=
  (fst run,
   match snd run with
   | Returned (_, v) => Returned v
   | Thrown e => Thrown e
   end).

(** The entry of a phrase key in a language is no function and no object:
    a string, or nothing. *)
Definition plainIn (X : Phrases) (language phraseKey : string) (v : JSValue)
  : Prop :=
  translations X language phraseKey = PhraseValue v /\
  forall o, v <> JObject o.

(** The ordinal plural forms of English for the small numbers. *)
Definition ordinalForm (count : Z) : string :=
  if (count =? 1)%Z then "one"
  else if (count =? 2)%Z then "two"
  else if (count =? 3)%Z then "few"
  else "other".

(** Phrases for the examples: "hello" in en and es, "bye" in en only, and
    "place" in en with the plural forms [one] and [other].  Plural rules
    are there for en, es and es-ES, and the constructor throws on any other
    tag. *)
Definition examplePhrases : Phrases :=
  {| translations := fun language phraseKey =>
       if String.eqb phraseKey "hello" then
         if String.eqb language "en" then PhraseValue (JString "Hello")
         else if String.eqb language "es" then PhraseValue (JString "Hola")
         else PhraseValue JUndefined
       else if String.eqb phraseKey "bye" then
         if String.eqb language "en" then PhraseValue (JString "Bye")
         else PhraseValue JUndefined
       else if String.eqb phraseKey "place" then
         if String.eqb language "en" then
           PhraseValue (JObject [ ("one", JString "1st place");
                                  ("other", JString "a later place") ])
         else PhraseValue JUndefined
       else PhraseValue JUndefined;
     newPluralRules := fun language =>
       if String.eqb language "en" || String.eqb language "es"
          || String.eqb language "es-ES"
       then Returned ordinalForm
       else Thrown (Error "Incorrect locale information provided");
     LOCALE_DEFAULT := "en";
     LOCALE_ES_ES := "es-ES";
     LOCALE_ES_ES_ONFIDO := "es_ES";
     IS_IN_PRODUCTION := false;
     IS_IN_STAGING := false;
     EXPENSIFY_EMAIL_DOMAIN := "@expensify.com";
     MISSING_TRANSLATION := "MISSING TRANSLATION" |}.

(** The cache as line 85 makes it: a map per locale, all empty. *)
Definition emptyCache : TranslationCache :=
  [ ("en", []); ("es", []); ("es-ES", []); ("es_ES", []) ].

(** ** Facts about the loop *)

Lemma getMinimalAction_loop (a : NavigationAction) (s : NavigationState) :
  getMinimalAction a s =
  match iteration a s with
  | Break => Returned a
  | Raise e => Thrown e
  | Continue smaller nested => getMinimalAction smaller nested
  end.
Proof.
  rewrite getMinimalAction_equation_1. unfold inspect.
  generalize (@eq_refl _ (iteration a s)).
  generalize (iteration a s) at 2 4 5.
  intros [ | e | a' s'] H; reflexivity.
Qed.

Lemma strictEqStr_Some (s : string) (v : JSValue) :
  strictEqStr (Some s) v = true <-> v = JString s.
Proof.
  destruct v; simpl; split; try discriminate; intros H.
  - apply String.eqb_eq in H. now subst.
  - injection H as ->. apply String.eqb_refl.
Qed.

Lemma getProp_hasProp (k : string) (o : JSObject) :
  getProp k o <> JUndefined -> hasProp k o = true.
Proof.
  induction o as [|[k' v] o IH]; simpl; [congruence|].
  destruct (String.eqb k k'); simpl; auto.
Qed.

Lemma payloadAt_S (level : nat) (p : JSObject) :
  payloadAt (S level) p = smallerPayload (payloadAt level p).
Proof. reflexivity. Qed.

(** The payloads the loop builds, in closed form: [params] read off the
    payload at a level is [params] read once more off the input payload, so
    the payload at a level [k >= 1] is the triple read off [paramsAt k]. *)
Lemma params_payloadAt (level : nat) (p : JSObject) :
  getProp "params" (payloadAt level p) = paramsAt (S level) p.
Proof.
  induction level as [|level IH]; [reflexivity|].
  rewrite payloadAt_S.
  change (getProp "params" (smallerPayload (payloadAt level p)))
    with (optProp "params" (getProp "params" (payloadAt level p))).
  now rewrite IH.
Qed.

Lemma payloadAt_triple (level : nat) (p : JSObject) :
  payloadAt (S level) p =
  [ ("name", optProp "screen" (paramsAt (S level) p));
    ("params", optProp "params" (paramsAt (S level) p));
    ("path", optProp "path" (paramsAt (S level) p)) ].
Proof.
  rewrite payloadAt_S. unfold smallerPayload. now rewrite params_payloadAt.
Qed.

Lemma nameAt_payloadAt (level : nat) (p : JSObject) :
  getProp "name" (payloadAt level p) = nameAt level p.
Proof.
  destruct level as [|level]; [reflexivity|].
  now rewrite payloadAt_triple.
Qed.

Lemma iteration_continue (a : NavigationAction) (s nested : NavigationState)
    (p : JSObject) (r : Route) :
  payload a = Some p -> activeRoute s = Some r ->
  getProp "name" p = JString (name r) -> state r = Some nested ->
  iteration a s = Continue (smallerAction a p (key nested)) nested.
Proof.
  intros Hp Hr Hn Hs. unfold iteration. rewrite Hp.
  rewrite getProp_hasProp by (rewrite Hn; discriminate). cbn [negb].
  rewrite Hr, (proj2 (strictEqStr_Some _ _) Hn). cbn [negb].
  now rewrite Hs.
Qed.

Lemma iteration_break (a : NavigationAction) (s : NavigationState) :
  lacksName a \/ nameDiffers a s \/ noNestedState a s -> iteration a s = Break.
Proof.
  unfold iteration, lacksName, nameDiffers, noNestedState.
  intros [H | [(p & r & Hp & Hh & Hr & Hn) | (p & r & Hp & Hr & Hn & Hs)]].
  - destruct (payload a); [now rewrite H | reflexivity].
  - rewrite Hp, Hh, Hr. cbn [negb].
    destruct (strictEqStr _ _) eqn:E; [|reflexivity].
    apply strictEqStr_Some in E. contradiction.
  - rewrite Hp, Hr. destruct (hasProp "name" p); [cbn [negb]|reflexivity].
    rewrite (proj2 (strictEqStr_Some _ _) Hn). cbn [negb]. now rewrite Hs.
Qed.

Lemma reaches_result (a0 a : NavigationAction) (s0 s : NavigationState) :
  reaches a0 s0 a s -> getMinimalAction a0 s0 = getMinimalAction a s.
Proof.
  induction 1 as [|a s a' s' _ IH Hit]; [reflexivity|].
  rewrite IH, (getMinimalAction_loop a s), Hit. reflexivity.
Qed.

Lemma nodeAt_snoc (k : nat) :
  forall (tree node nested : NavigationState) (r : Route),
  nodeAt k tree = Some node -> activeRoute node = Some r ->
  state r = Some nested -> nodeAt (S k) tree = Some nested.
Proof.
  induction k as [|k IH]; intros tree node nested r Hnode Hr Hs.
  - simpl in *. injection Hnode as ->. now rewrite Hr, Hs.
  - cbn [nodeAt] in Hnode |- *.
    destruct (activeRoute tree) as [r0|]; [|discriminate].
    destruct (state r0) as [n0|]; [|discriminate].
    eapply IH; eauto.
Qed.

(** After [k] matching levels the loop is at the node [k] levels down, with
    the action rebuilt [k] times. *)
Lemma descent (k : nat) :
  forall (a : NavigationAction) (p : JSObject) (tree : NavigationState),
  payload a = Some p ->
  (forall i, i < k -> exists n r,
      nodeAt i tree = Some n /\ activeRoute n = Some r /\
      getProp "name" (payloadAt i p) = JString (name r) /\ state r <> None) ->
  exists node,
    nodeAt k tree = Some node /\
    reaches a tree
      (match k with
       | 0 => a
       | S _ => {| type := type a; payload := Some (payloadAt k p);
                   source := None; target := key node |}
       end) node.
Proof.
  induction k as [|k IH]; intros a p tree Hp H.
  - exists tree. split; [reflexivity | constructor].
  - destruct (IH a p tree Hp) as (node & Hnode & Hreach).
    { intros i Hi. apply H. lia. }
    destruct (H k (Nat.lt_succ_diag_r k)) as (n & r & Hn & Hr & Hname & Hst).
    rewrite Hnode in Hn. injection Hn as <-.
    destruct (state r) as [nested|] eqn:Hs; [|congruence].
    exists nested. split; [eapply nodeAt_snoc; eauto|].
    eapply reaches_turn; [exact Hreach|]. clear IH H Hreach Hnode.
    destruct k as [|k].
    + now rewrite (iteration_continue a node nested p r Hp Hr Hname Hs).
    + now rewrite (iteration_continue
                     {| type := type a; payload := Some (payloadAt (S k) p);
                        source := None; target := key node |}
                     node nested (payloadAt (S k) p) r eq_refl Hr Hname Hs).
Qed.

(** A state with no route has no route at its index, whatever the index. *)
Lemma activeRoute_no_routes (s : NavigationState) :
  routes s = [] -> activeRoute s = None.
Proof.
  intros Hrs. unfold activeRoute, at_index. rewrite Hrs.
  destruct (_ <? 0)%Z; [reflexivity|]. now destruct (Z.to_nat _).
Qed.

Lemma name_match_dec (r : Route) (v : JSValue) :
  v = JString (name r) \/ v <> JString (name r).
Proof.
  destruct (strictEqStr (Some (name r)) v) eqn:E.
  - left. now apply strictEqStr_Some.
  - right. intros H. apply strictEqStr_Some in H. congruence.
Qed.


(** On a tree whose active branch is indexed all the way down the loop
    meets no missing route: it returns an action, of the input's type. *)
Lemma getMinimalAction_indexed (tree : NavigationState) :
  activeBranchIndexed tree ->
  forall action, exists minimalAction,
    getMinimalAction action tree = Returned minimalAction /\
    type minimalAction = type action.
Proof.
  induction 1 as [s r Hr Hs | s r nested Hr Hs _ IH]; intros action;
    rewrite getMinimalAction_loop; unfold iteration; rewrite Hr, Hs;
    destruct (payload action) as [p|]; eauto;
    destruct (negb (hasProp "name" p)); eauto;
    destruct (negb (strictEqStr _ _)); eauto.
  destruct (IH (smallerAction action p (key nested))) as (m & Hm & Hty).
  exists m. split; [exact Hm | exact Hty].
Qed.

(** ** Facts about the run of [linkTo] *)

Lemma trace_after {A : Type} (t : list Event) (m : Eff A) :
  trace (after t m) = t ++ trace m.
Proof. reflexivity. Qed.

Lemma getRoot_run (navigation : Navigation) :
  getRoot navigation = (parentCalls navigation, Returned (rootOf navigation)).
Proof.
  revert navigation. fix IH 1. intros [[current|] st rs].
  - simpl. rewrite (IH current). reflexivity.
  - reflexivity.
Qed.

Section LinkToFacts.

Variable K : Constants.
Variable E : Collaborators.

Lemma linkTo_run (navigation : Navigation) (path : string)
    (typeHint : option string) (isActiveRoute : option bool) :
  linkTo K E (Some navigation) path typeHint isActiveRoute =
  after (reads E navigation path)
    (match getActionFromState E (getStateFromPath E path) with
     | Some resolved =>
         '(action, navigation') <-
           overrideType K E navigation (getState (rootOf navigation))
             (getStateFromPath E path) typeHint resolved ;;
         dispatchOrReset K navigation' (getStateFromPath E path) typeHint
           isActiveRoute (Some action)
     | None =>
         dispatchOrReset K navigation (getStateFromPath E path) typeHint
           isActiveRoute None
     end).
Proof.
  unfold linkTo, reads, after. rewrite getRoot_run.
  unfold bind at 1. unfold call at 1 2 3. cbn [bind].
  destruct (getActionFromState E (getStateFromPath E path)) as [resolved|].
  - destruct (_ <- _ ;; _) as [t c]. cbn [fst snd].
    now rewrite <- !app_assoc.
  - destruct (dispatchOrReset _ _ _ _ _ _) as [t c]. cbn [fst snd].
    now rewrite <- !app_assoc.
Qed.

Lemma linkTo_overridden (navigation navigation' : Navigation) (path : string)
    (typeHint : option string) (isActiveRoute : option bool)
    (resolved action : NavigationAction) (t : list Event) :
  getActionFromState E (getStateFromPath E path) = Some resolved ->
  overrideType K E navigation (getState (rootOf navigation))
    (getStateFromPath E path) typeHint resolved
  = (t, Returned (action, navigation')) ->
  linkTo K E (Some navigation) path typeHint isActiveRoute =
  after (reads E navigation path ++ t)
    (dispatchOrReset K navigation' (getStateFromPath E path) typeHint
       isActiveRoute (Some action)).
Proof.
  intros Hres Hov. rewrite linkTo_run, Hres, Hov. unfold bind, after.
  destruct (dispatchOrReset _ _ _ _ _ _) as [t' c]. cbn [fst snd].
  now rewrite app_assoc.
Qed.

Lemma calls_app (kind : Event -> bool) (t t' : list Event) :
  calls kind (t ++ t') = calls kind t + calls kind t'.
Proof. unfold calls. now rewrite filter_app, length_app. Qed.

Lemma calls_parentCalls (kind : Event -> bool) (navigation : Navigation) :
  kind GetParent = false -> calls kind (parentCalls navigation) = 0.
Proof.
  intros Hk. revert navigation. fix IH 1. intros [[current|] st rs].
  - change (parentCalls (mkNavigation (Some current) st rs))
      with (GetParent :: parentCalls current).
    unfold calls in *. cbn [filter]. rewrite Hk. apply IH.
  - unfold calls. cbn. now rewrite Hk.
Qed.

Lemma calls_reads (kind : Event -> bool) (navigation : Navigation)
    (path : string) :
  kind GetParent = false -> kind GetState = false ->
  kind (GetStateFromPath path) = false ->
  kind (GetActionFromState (getStateFromPath E path)) = false ->
  calls kind (reads E navigation path) = 0.
Proof.
  intros H1 H2 H3 H4. unfold reads.
  rewrite calls_app, calls_parentCalls by assumption.
  unfold calls. cbn. now rewrite H2, H3, H4.
Qed.

(** What lines 108-125 do on an action that names a modal navigator. *)
Lemma dispatchOrReset_modal (navigation : Navigation) (state : NavigationState)
    (typeHint : option string) (isActiveRoute : option bool)
    (action : NavigationAction) :
  targetsModalNavigator K action = true ->
  dispatchOrReset K navigation state typeHint isActiveRoute (Some action) =
  match getMinimalAction action (getRootState navigation) with
  | Returned minimalAction =>
      ([ GetRootState;
         Dispatch (forceType K typeHint isActiveRoute minimalAction) ],
       Returned tt)
  | Thrown e => ([ GetRootState ], Thrown e)
  end.
Proof.
  intros Hm. unfold dispatchOrReset. rewrite Hm.
  unfold bind, call, lift.
  now destruct (getMinimalAction action (getRootState navigation)).
Qed.

Lemma dispatchOrReset_no_dismiss (navigation : Navigation)
    (state : NavigationState) (typeHint : option string)
    (isActiveRoute : option bool) (action : option NavigationAction) :
  calls isDismissModal
    (trace (dispatchOrReset K navigation state typeHint isActiveRoute action))
  = 0.
Proof.
  destruct action as [action|]; [|reflexivity].
  destruct (targetsModalNavigator K action) eqn:Hm.
  - rewrite dispatchOrReset_modal by assumption.
    now destruct (getMinimalAction action (getRootState navigation)).
  - unfold dispatchOrReset. now rewrite Hm.
Qed.

(** [linkTo] dismisses only in lines 82-106. *)
Lemma linkTo_dismissals (navigation navigation' : Navigation) (path : string)
    (typeHint : option string) (isActiveRoute : option bool)
    (resolved action : NavigationAction) (t : list Event) :
  getActionFromState E (getStateFromPath E path) = Some resolved ->
  overrideType K E navigation (getState (rootOf navigation))
    (getStateFromPath E path) typeHint resolved
  = (t, Returned (action, navigation')) ->
  calls isDismissModal
    (trace (linkTo K E (Some navigation) path typeHint isActiveRoute))
  = calls isDismissModal t.
Proof.
  intros Hres Hov.
  rewrite (linkTo_overridden navigation navigation' path typeHint
             isActiveRoute resolved action t Hres Hov), trace_after.
  rewrite !calls_app, calls_reads, dispatchOrReset_no_dismiss by reflexivity.
  lia.
Qed.

Lemma setType_same (action : NavigationAction) :
  setType action (type action) = action.
Proof. now destruct action. Qed.

(** Lines 82-106 complete on an action that carries a payload; they change
    nothing but its type, and call nothing but, at most once,
    [dismissModal]. *)
Lemma overrideType_returns (navigation : Navigation)
    (rootState : option NavigationState) (state : NavigationState)
    (typeHint : option string) (action : NavigationAction) (p : JSObject) :
  payload action = Some p ->
  exists t ty navigation',
    overrideType K E navigation rootState state typeHint action
    = (t, Returned (setType action ty, navigation')) /\
    (t = [] /\ navigation' = navigation \/
     t = [DismissModal ""] /\ navigation' = dismissModal E "" navigation).
Proof.
  intros Hp. unfold overrideType. rewrite Hp.
  destruct (negb _).
  { exists [], (type action), navigation. rewrite setType_same. auto. }
  destruct (hintIs typeHint (TYPE_FORCED_UP K)).
  { exists [], (ACTION_TYPE_REPLACE K), navigation. auto. }
  destruct (_ && _).
  { exists [], (ACTION_TYPE_PUSH K), navigation. auto. }
  destruct (hintIs typeHint (TYPE_UP K)).
  { exists [], (ACTION_TYPE_REPLACE K), navigation. auto. }
  destruct (_ && _).
  2:{ exists [], (type action), navigation. rewrite setType_same. auto. }
  destruct (isModalNavigator K _).
  - exists [DismissModal ""], (ACTION_TYPE_PUSH K),
      (dismissModal E "" navigation). auto.
  - exists [], (ACTION_TYPE_PUSH K), navigation. auto.
Qed.

(** On an action that names no modal navigator they call nothing at all. *)
Lemma overrideType_not_modal (navigation : Navigation)
    (rootState : option NavigationState) (state : NavigationState)
    (typeHint : option string) (action : NavigationAction) :
  targetsModalNavigator K action = false ->
  (type action = ACTION_TYPE_NAVIGATE K -> payload action <> None) ->
  exists ty,
    overrideType K E navigation rootState state typeHint action
    = ret (setType action ty, navigation).
Proof.
  intros Hmodal Hpayload. unfold overrideType, targetsModalNavigator in *.
  destruct (String.eqb_spec (type action) (ACTION_TYPE_NAVIGATE K)) as [Hty|_];
    cbn [negb].
  2:{ exists (type action). now rewrite setType_same. }
  destruct (payload action) as [p|]; [|now destruct (Hpayload Hty)].
  destruct (hintIs typeHint (TYPE_FORCED_UP K)); [eauto|].
  destruct (strictEqStr (Some (CENTRAL_PANE_NAVIGATOR K)) _ && _); [eauto|].
  destruct (hintIs typeHint (TYPE_UP K)); [eauto|].
  destruct (isModalNavigator K (getProp "name" p)) eqn:Hm.
  - exfalso. rewrite andb_true_r in Hmodal.
    assert (getProp "name" p <> JUndefined).
    { unfold isModalNavigator in Hm.
      destruct (getProp "name" p); discriminate. }
    rewrite getProp_hasProp in Hmodal by assumption. discriminate.
  - cbn [andb]. exists (type action). now rewrite setType_same.
Qed.

Lemma targetsModalNavigator_setType (action : NavigationAction) (ty : string) :
  targetsModalNavigator K (setType action ty) = targetsModalNavigator K action.
Proof. reflexivity. Qed.

Lemma optStringEqb_eq (a b : option string) :
  optStringEqb a b = true <-> a = b.
Proof.
  destruct a as [x|], b as [y|]; cbn; split; try congruence.
  - intros H. apply String.eqb_eq in H. now subst.
  - intros [= ->]. apply String.eqb_refl.
Qed.

Lemma hintIs_false (typeHint : option string) (c : string) :
  typeHint <> Some c -> hintIs typeHint c = false.
Proof.
  destruct typeHint as [t|]; [|reflexivity]. cbn. intros H.
  destruct (String.eqb_spec t c); congruence.
Qed.

End LinkToFacts.

(** Two runs: the left modal is open and the path leads into the right
    one; and the right modal is open already. *)
Example linkTo_over_left_modal :
  linkTo appConstants profileLinks (Some (containerOf rootWithLeftModal))
    "settings/profile" None None
  = ([ GetParent; GetState; GetStateFromPath "settings/profile";
       GetActionFromState profileState; DismissModal ""; GetRootState;
       Dispatch (setType profileAction "PUSH") ],
     Returned tt).
Proof. vm_compute. reflexivity. Qed.

Example linkTo_inside_right_modal :
  linkTo appConstants profileLinks (Some (screenIn rootWithRightModal))
    "settings/profile" None None
  = ([ GetParent; GetParent; GetState; GetStateFromPath "settings/profile";
       GetActionFromState profileState; GetRootState;
       Dispatch minimalProfileAction ],
     Returned tt).
Proof. vm_compute. reflexivity. Qed.

(** ** The minimal-action reducer *)

(** C1.  When the first [k >= 1] levels of the action's name chain
    ([payload.name], then [params.screen] level by level) are the names of
    the routes on the tree's active branch and each of them has a nested
    state, and the descent ends at the node [k] levels down, which has a
    route at its index, of another name or with no nested state, then
    [getMinimalAction] returns the action whose target is the key of that
    node, whose type is the input's, and whose payload is the triple
    [{name: params.screen, params: params.params, path: params.path}] read
    off the [params] of the [k]-th level. *)
Theorem getMinimalAction_descends (k : nat) (action : NavigationAction)
    (p : JSObject) (tree node : NavigationState) (r : Route) :
  0 < k ->
  payload action = Some p ->
  (forall i, i < k -> exists n ri,
      nodeAt i tree = Some n /\ activeRoute n = Some ri /\
      nameAt i p = JString (name ri) /\ state ri <> None) ->
  nodeAt k tree = Some node ->
  activeRoute node = Some r ->
  nameAt k p <> JString (name r) \/ state r = None ->
  getMinimalAction action tree =
  Returned {| type := type action;
              payload := Some [ ("name", optProp "screen" (paramsAt k p));
                                ("params", optProp "params" (paramsAt k p));
                                ("path", optProp "path" (paramsAt k p)) ];
              source := None;
              target := key node |}.
Proof.
  intros Hk Hp Hlevels Hnode Hr Hstop.
  assert (Hlevels' : forall i, i < k -> exists n ri,
             nodeAt i tree = Some n /\ activeRoute n = Some ri /\
             getProp "name" (payloadAt i p) = JString (name ri) /\
             state ri <> None).
  { intros i Hi. destruct (Hlevels i Hi) as (n & ri & H1 & H2 & H3 & H4).
    exists n, ri. rewrite nameAt_payloadAt. auto. }
  destruct (descent k action p tree Hp Hlevels') as (node' & Hnode' & Hreach).
  rewrite Hnode in Hnode'. injection Hnode' as <-.
  rewrite (reaches_result _ _ _ _ Hreach).
  destruct k as [|k]; [lia|].
  rewrite <- payloadAt_triple, <- nameAt_payloadAt in *.
  rewrite getMinimalAction_loop, iteration_break; [reflexivity|].
  right. unfold nameDiffers, noNestedState. cbn [payload].
  destruct (name_match_dec r (getProp "name" (payloadAt (S k) p))) as [E|E].
  - destruct Hstop as [Hd|Hs]; [contradiction|].
    right. exists (payloadAt (S k) p), r. auto.
  - left. exists (payloadAt (S k) p), r.
    split; [reflexivity|]. split; [|auto].
    now rewrite payloadAt_triple.
Qed.

Lemma getMinimalAction_descends_witness :
  getMinimalAction profileAction rootWithRightModal =
  Returned {| type := "NAVIGATE";
              payload := Some [ ("name", JString "Settings_Profile");
                                ("params", JUndefined);
                                ("path", JString "settings/profile") ];
              source := None;
              target := Some "stack-settings" |} /\
  getMinimalAction profileAction rootWithSearchModal =
  Returned {| type := "NAVIGATE";
              payload :=
                Some [ ("name", JString "Settings");
                       ("params",
                        JObject [ ("screen", JString "Settings_Profile");
                                  ("path", JString "settings/profile") ]);
                       ("path", JString "settings/profile") ];
              source := None;
              target := Some "stack-rhp" |}.
Proof.
  split.
  - apply (getMinimalAction_descends 2 profileAction profilePayload
             rootWithRightModal settingsStack (leaf "Settings_Root")).
    + lia.
    + reflexivity.
    + intros [|[|i]] Hi; [| |lia].
      * exists rootWithRightModal. eexists.
        split; [reflexivity|]. split; [reflexivity|].
        split; [reflexivity | discriminate].
      * exists rightModalStack. eexists.
        split; [reflexivity|]. split; [reflexivity|].
        split; [reflexivity | discriminate].
    + reflexivity.
    + reflexivity.
    + left. discriminate.
  - apply (getMinimalAction_descends 1 profileAction profilePayload
             rootWithSearchModal
             {| routes := [ leaf "Search" ]; index := Some 0%Z;
                key := Some "stack-rhp" |} (leaf "Search")).
    + lia.
    + reflexivity.
    + intros [|i] Hi; [|lia].
      exists rootWithSearchModal. eexists.
      split; [reflexivity|]. split; [reflexivity|].
      split; [reflexivity | discriminate].
    + reflexivity.
    + reflexivity.
    + left. discriminate.
Defined.

(** C1, as the specification words it, fails: the premises for [k = 1] hold
    of the action into the settings flow and the tree whose open modal
    carries a partial nested state (the first name of the chain is the name
    of the active root route, which has a nested state), yet no action is
    returned.  The loop descends once and throws at the node it reaches,
    which has no route at its index. *)
Lemma getMinimalAction_descends_partial_throws :
  payload profileAction = Some profilePayload /\
  (forall i, i < 1 -> exists n ri,
      nodeAt i rootWithPartialModal = Some n /\ activeRoute n = Some ri /\
      nameAt i profilePayload = JString (name ri) /\ state ri <> None) /\
  nodeAt 1 rootWithPartialModal = Some partialModalStack /\
  activeRoute partialModalStack = None /\
  getMinimalAction profileAction rootWithPartialModal = Thrown TypeError.
Proof.
  split; [reflexivity|]. split.
  - intros [|i] Hi; [|lia]. exists rootWithPartialModal. eexists.
    split; [reflexivity|]. split; [reflexivity|].
    split; [reflexivity | discriminate].
  - split; [reflexivity|]. split; [reflexivity|]. vm_compute. reflexivity.
Qed.

(** C2.  The loop ends, returning the action it holds, when the payload
    lacks a name, when the active route has another name, or when the
    matching active route has no nested state.  At the first turn
    ([reaches_start]) the action it holds is the input action, which is
    returned as it came, no target set on it; at a later turn it is the
    action built so far. *)
Theorem getMinimalAction_stops (action built : NavigationAction)
    (tree node : NavigationState) :
  reaches action tree built node ->
  lacksName built \/ nameDiffers built node \/ noNestedState built node ->
  getMinimalAction action tree = Returned built.
Proof.
  intros Hreach Hstop.
  rewrite (reaches_result _ _ _ _ Hreach), getMinimalAction_loop.
  now rewrite iteration_break.
Qed.

Lemma getMinimalAction_stops_witness :
  getMinimalAction profileAction rootAtHome = Returned profileAction /\
  getMinimalAction profileAction rootWithRightModal =
  Returned (smallerAction (smallerAction profileAction profilePayload
                             (Some "stack-rhp"))
              (smallerPayload profilePayload) (Some "stack-settings")).
Proof.
  split.
  - apply (getMinimalAction_stops profileAction profileAction
             rootAtHome rootAtHome).
    + apply reaches_start.
    + right. left. exists profilePayload, (leaf "Home").
      repeat split; try reflexivity. discriminate.
  - apply (getMinimalAction_stops profileAction _
             rootWithRightModal settingsStack).
    + eapply reaches_turn; [eapply reaches_turn; [apply reaches_start|]|];
        reflexivity.
    + right. left. eexists. exists (leaf "Settings_Root").
      repeat split; try reflexivity. discriminate.
Defined.

(** C9.  At a state whose [index] is set and addresses a route of [routes],
    the lookup of line 35 is total: the active route is [routes[index]], and
    the turn either ends the loop, returning the action held, or descends
    into the nested state of that route. *)
Theorem activeRoute_indexed (action : NavigationAction)
    (currentState : NavigationState) (i : Z) :
  index currentState = Some i ->
  (0 <= i < Z.of_nat (length (routes currentState)))%Z ->
  exists r,
    nth_error (routes currentState) (Z.to_nat i) = Some r /\
    activeRoute currentState = Some r /\
    (getMinimalAction action currentState = Returned action \/
     exists p nested,
       payload action = Some p /\ state r = Some nested /\
       getMinimalAction action currentState =
       getMinimalAction (smallerAction action p (key nested)) nested).
Proof.
  intros Hi Hrange.
  destruct (nth_error (routes currentState) (Z.to_nat i)) as [r|] eqn:Hr.
  2:{ apply nth_error_None in Hr. lia. }
  assert (Ha : activeRoute currentState = Some r).
  { unfold activeRoute, at_index. rewrite Hi.
    destruct (i <? 0)%Z eqn:E; [lia | exact Hr]. }
  exists r. repeat split; auto.
  rewrite getMinimalAction_loop. unfold iteration. rewrite Ha.
  destruct (payload action) as [p|]; [|now left].
  destruct (negb (hasProp "name" p)); [now left|].
  destruct (negb (strictEqStr _ _)); [now left|].
  destruct (state r) as [nested|]; [|now left].
  right. exists p, nested. auto.
Qed.

Lemma activeRoute_indexed_witness :
  exists r,
    nth_error (routes rootWithRightModal) (Z.to_nat 1) = Some r /\
    activeRoute rootWithRightModal = Some r /\
    (getMinimalAction profileAction rootWithRightModal
     = Returned profileAction \/
     exists p nested,
       payload profileAction = Some p /\ state r = Some nested /\
       getMinimalAction profileAction rootWithRightModal =
       getMinimalAction (smallerAction profileAction p (key nested)) nested).
Proof.
  apply (activeRoute_indexed profileAction rootWithRightModal 1).
  - reflexivity.
  - simpl. lia.
Defined.

(** C9, as the specification words it, fails on a state the loop reaches.
    The root state has its [index], and its active route, the open modal,
    carries a partial nested state: no [index].  The loop descends into it
    with the action that names Settings, the last route there; the lookup is
    [routes[-1]], which is no route, not the last one, and the read of
    [.name] throws. *)
Lemma activeRoute_unindexed_throws :
  index rootWithPartialModal = Some 1%Z /\
  reaches profileAction rootWithPartialModal
    (smallerAction profileAction profilePayload None) partialModalStack /\
  index partialModalStack = None /\
  at_last (routes partialModalStack) = Some (leaf "Settings") /\
  getProp "name" (smallerPayload profilePayload)
  = JString (name (leaf "Settings")) /\
  activeRoute partialModalStack = None /\
  getMinimalAction profileAction rootWithPartialModal = Thrown TypeError.
Proof.
  split; [reflexivity|]. split.
  { eapply reaches_turn; [apply reaches_start | reflexivity]. }
  split; [reflexivity|]. split; [reflexivity|]. split; [reflexivity|].
  split; [reflexivity|]. vm_compute. reflexivity.
Qed.

(** ** [linkTo] *)

(** C3.  When the resolved action has type NAVIGATE (such an action carries
    a payload, which line 84 reads) and the caller's hint is FORCED_UP, its
    type is rewritten to REPLACE whatever the root state and the parsed
    state are, so whatever the central-pane comparison or the modal
    conditions would say, and nothing is dismissed: [linkTo] goes on to line
    108 with the action whose type is REPLACE and whose payload, source and
    target are the resolved action's, and with the navigation object as it
    was. *)
Theorem linkTo_forced_up_replaces (K : Constants) (E : Collaborators)
    (navigation : Navigation) (path : string)
    (isActiveRoute : option bool) (resolved : NavigationAction)
    (p : JSObject) :
  getActionFromState E (getStateFromPath E path) = Some resolved ->
  type resolved = ACTION_TYPE_NAVIGATE K ->
  payload resolved = Some p ->
  (forall rootState state,
     overrideType K E navigation rootState state
       (Some (TYPE_FORCED_UP K)) resolved
     = ret ({| type := ACTION_TYPE_REPLACE K; payload := payload resolved;
               source := source resolved; target := target resolved |},
            navigation)) /\
  linkTo K E (Some navigation) path (Some (TYPE_FORCED_UP K)) isActiveRoute =
  after (reads E navigation path)
    (dispatchOrReset K navigation (getStateFromPath E path)
       (Some (TYPE_FORCED_UP K)) isActiveRoute
       (Some {| type := ACTION_TYPE_REPLACE K; payload := payload resolved;
                source := source resolved; target := target resolved |})).
Proof.
  intros Hres Hty Hp.
  assert (Hov : forall rootState state,
             overrideType K E navigation rootState state
               (Some (TYPE_FORCED_UP K)) resolved
             = ret ({| type := ACTION_TYPE_REPLACE K;
                       payload := payload resolved;
                       source := source resolved;
                       target := target resolved |}, navigation)).
  { intros rootState state. unfold overrideType, setType.
    rewrite Hty, String.eqb_refl, Hp. cbn [negb hintIs].
    now rewrite String.eqb_refl. }
  split; [exact Hov|].
  rewrite (linkTo_overridden K E navigation navigation path _ _ resolved
             _ [] Hres (Hov _ _)).
  now rewrite app_nil_r.
Qed.

Lemma linkTo_forced_up_replaces_witness :
  (forall rootState state,
     overrideType appConstants profileLinks
       (screenIn rootAtHome) rootState state (Some "FORCED_UP") profileAction
     = ret ({| type := "REPLACE"; payload := Some profilePayload;
               source := None; target := None |}, screenIn rootAtHome)) /\
  linkTo appConstants profileLinks
    (Some (screenIn rootAtHome)) "settings/profile" (Some "FORCED_UP") None
  = ([ GetParent; GetParent; GetState; GetStateFromPath "settings/profile";
       GetActionFromState profileState; GetRootState;
       Dispatch {| type := "REPLACE"; payload := Some profilePayload;
                   source := None; target := None |} ],
     Returned tt).
Proof.
  exact (linkTo_forced_up_replaces appConstants
           profileLinks (screenIn rootAtHome)
           "settings/profile" None profileAction profilePayload
           eq_refl eq_refl eq_refl).
Defined.

(** C4.  When the resolved action has type NAVIGATE, the hint is not
    FORCED_UP, the payload names the central-pane navigator, and
    [getTopmostReportId] differs between the root state and the state
    parsed from the path, the action's type is rewritten to PUSH: [linkTo]
    goes on to line 108 with the action whose type is PUSH and whose
    payload, source and target are the resolved action's. *)
Theorem linkTo_central_pane_pushes (K : Constants) (E : Collaborators)
    (navigation : Navigation) (path : string)
    (typeHint : option string) (isActiveRoute : option bool)
    (resolved : NavigationAction) (p : JSObject) :
  getActionFromState E (getStateFromPath E path) = Some resolved ->
  type resolved = ACTION_TYPE_NAVIGATE K ->
  payload resolved = Some p ->
  typeHint <> Some (TYPE_FORCED_UP K) ->
  getProp "name" p = JString (CENTRAL_PANE_NAVIGATOR K) ->
  getTopmostReportId E (getState (rootOf navigation)) <>
  getTopmostReportId E (Some (getStateFromPath E path)) ->
  overrideType K E navigation (getState (rootOf navigation))
    (getStateFromPath E path) typeHint resolved
  = ret ({| type := ACTION_TYPE_PUSH K; payload := payload resolved;
            source := source resolved; target := target resolved |},
         navigation) /\
  linkTo K E (Some navigation) path typeHint isActiveRoute =
  after (reads E navigation path)
    (dispatchOrReset K navigation (getStateFromPath E path) typeHint
       isActiveRoute
       (Some {| type := ACTION_TYPE_PUSH K; payload := payload resolved;
                source := source resolved; target := target resolved |})).
Proof.
  intros Hres Hty Hp Hhint Hname Hids.
  assert (Hov : overrideType K E navigation (getState (rootOf navigation))
                  (getStateFromPath E path) typeHint resolved
                = ret ({| type := ACTION_TYPE_PUSH K;
                          payload := payload resolved;
                          source := source resolved;
                          target := target resolved |}, navigation)).
  { unfold overrideType, setType. rewrite Hty, String.eqb_refl, Hp. cbn [negb].
    replace (hintIs typeHint (TYPE_FORCED_UP K)) with false.
    2:{ destruct typeHint as [t|]; [|reflexivity]. cbn.
        destruct (String.eqb_spec t (TYPE_FORCED_UP K)); congruence. }
    rewrite Hname. cbn [strictEqStr]. rewrite String.eqb_refl.
    replace (optStringEqb _ _) with false; [reflexivity|].
    destruct (getTopmostReportId E (getState (rootOf navigation))) as [x|],
             (getTopmostReportId E (Some (getStateFromPath E path))) as [y|];
      cbn; try congruence.
    destruct (String.eqb_spec x y); congruence. }
  split; [exact Hov|].
  rewrite (linkTo_overridden K E navigation navigation path _ _ resolved
             _ [] Hres Hov).
  now rewrite app_nil_r.
Qed.

Lemma linkTo_central_pane_pushes_witness :
  overrideType appConstants reportLinks
    (screenIn rootAtHome) (Some rootAtHome) reportState None reportAction
  = ret ({| type := "PUSH"; payload := Some reportPayload;
            source := None; target := None |}, screenIn rootAtHome) /\
  linkTo appConstants reportLinks
    (Some (screenIn rootAtHome)) "r/99" None None
  = ([ GetParent; GetParent; GetState; GetStateFromPath "r/99";
       GetActionFromState reportState;
       Dispatch {| type := "PUSH"; payload := Some reportPayload;
                   source := None; target := None |} ],
     Returned tt).
Proof.
  apply (linkTo_central_pane_pushes appConstants
           reportLinks (screenIn rootAtHome)
           "r/99" None None reportAction reportPayload);
    try reflexivity; discriminate.
Defined.

(** C5.  When the resolved action has type NAVIGATE, none of the rules for
    FORCED_UP, the central pane and UP applies, and the payload names a
    modal navigator: if that navigator is not the name of the topmost root
    route, [dismissModal] is called once when the topmost root route is
    itself a modal navigator and not at all otherwise, and the type is
    rewritten to PUSH, payload, source and target staying the resolved
    action's; if it is the topmost root route, the action stays as resolved,
    so of type NAVIGATE, and nothing is dismissed. *)
Theorem linkTo_modal_pushes (K : Constants) (E : Collaborators)
    (navigation : Navigation) (path : string)
    (typeHint : option string) (isActiveRoute : option bool)
    (resolved : NavigationAction) (p : JSObject) :
  getActionFromState E (getStateFromPath E path) = Some resolved ->
  type resolved = ACTION_TYPE_NAVIGATE K ->
  payload resolved = Some p ->
  typeHint <> Some (TYPE_FORCED_UP K) ->
  ~ (getProp "name" p = JString (CENTRAL_PANE_NAVIGATOR K) /\
     getTopmostReportId E (getState (rootOf navigation)) <>
     getTopmostReportId E (Some (getStateFromPath E path))) ->
  typeHint <> Some (TYPE_UP K) ->
  isModalNavigator K (getProp "name" p) = true ->
  (strictEqStr (topRouteName (getState (rootOf navigation)))
     (getProp "name" p) = false ->
   overrideType K E navigation (getState (rootOf navigation))
     (getStateFromPath E path) typeHint resolved
   = (if isModalNavigator K
           (ofOptString (topRouteName (getState (rootOf navigation))))
      then ([DismissModal ""],
            Returned ({| type := ACTION_TYPE_PUSH K;
                         payload := payload resolved;
                         source := source resolved;
                         target := target resolved |},
                      dismissModal E "" navigation))
      else ([], Returned ({| type := ACTION_TYPE_PUSH K;
                             payload := payload resolved;
                             source := source resolved;
                             target := target resolved |}, navigation)))
   /\
   calls isDismissModal
     (trace (linkTo K E (Some navigation) path typeHint isActiveRoute))
   = (if isModalNavigator K
           (ofOptString (topRouteName (getState (rootOf navigation))))
      then 1 else 0))
  /\
  (strictEqStr (topRouteName (getState (rootOf navigation)))
     (getProp "name" p) = true ->
   overrideType K E navigation (getState (rootOf navigation))
     (getStateFromPath E path) typeHint resolved
   = ret (resolved, navigation) /\
   type resolved = ACTION_TYPE_NAVIGATE K /\
   calls isDismissModal
     (trace (linkTo K E (Some navigation) path typeHint isActiveRoute))
   = 0).
Proof.
  intros Hres Hty Hp Hforced Hcentral Hup Hmodal.
  assert (Hrules : forall onTop,
    strictEqStr (topRouteName (getState (rootOf navigation)))
      (getProp "name" p) = onTop ->
    overrideType K E navigation (getState (rootOf navigation))
      (getStateFromPath E path) typeHint resolved
    = if negb onTop then
        navigation' <-
          (if isModalNavigator K
                (ofOptString (topRouteName (getState (rootOf navigation))))
           then call (DismissModal "") (dismissModal E "" navigation)
           else ret navigation) ;;
        ret (setType resolved (ACTION_TYPE_PUSH K), navigation')
      else ret (resolved, navigation)).
  { intros onTop HonTop. unfold overrideType, setType.
    rewrite Hty, String.eqb_refl, Hp. cbn [negb].
    rewrite (hintIs_false _ _ Hforced), (hintIs_false _ _ Hup).
    replace (_ && negb (optStringEqb _ _)) with false.
    2:{ destruct (strictEqStr (Some _) _) eqn:E1; [|reflexivity].
        destruct (optStringEqb _ _) eqn:E2; [reflexivity|].
        exfalso. apply Hcentral. split.
        - now apply strictEqStr_Some.
        - intros Heq. apply optStringEqb_eq in Heq. congruence. }
    rewrite Hmodal, HonTop. reflexivity. }
  split; intros HonTop; specialize (Hrules _ HonTop); cbn [negb] in Hrules.
  - destruct (isModalNavigator K (ofOptString _));
      (split; [exact Hrules|]);
      now rewrite (linkTo_dismissals K E navigation _ path _ _ resolved _ _
                     Hres Hrules).
  - split; [exact Hrules|]. split; [exact Hty|].
    now rewrite (linkTo_dismissals K E navigation _ path _ _ resolved _ _
                   Hres Hrules).
Qed.

Lemma linkTo_modal_pushes_witness :
  (overrideType appConstants profileLinks
     (containerOf rootWithLeftModal) (Some rootWithLeftModal) profileState
     None profileAction
   = ([ DismissModal "" ],
      Returned ({| type := "PUSH"; payload := Some profilePayload;
                   source := None; target := None |},
                dismissed (containerOf rootWithLeftModal))) /\
   calls isDismissModal
     (trace (linkTo appConstants profileLinks
               (Some (containerOf rootWithLeftModal)) "settings/profile"
               None None)) = 1) /\
  (overrideType appConstants profileLinks
     (containerOf rootWithRightModal) (Some rootWithRightModal) profileState
     None profileAction
   = ret (profileAction, containerOf rootWithRightModal) /\
   type profileAction = "NAVIGATE" /\
   calls isDismissModal
     (trace (linkTo appConstants profileLinks
               (Some (containerOf rootWithRightModal)) "settings/profile"
               None None)) = 0).
Proof.
  split.
  - apply (linkTo_modal_pushes appConstants profileLinks
             (containerOf rootWithLeftModal) "settings/profile" None None
             profileAction profilePayload);
      try reflexivity; try discriminate.
    intros [H _]. discriminate H.
  - apply (linkTo_modal_pushes appConstants profileLinks
             (containerOf rootWithRightModal) "settings/profile" None None
             profileAction profilePayload);
      try reflexivity; try discriminate.
    intros [H _]. discriminate H.
Defined.



(** C7.  When [getActionFromState] resolves no action, [linkTo] calls
    [reset] with the state parsed from the path and returns; it dispatches
    nothing and throws nothing.  When an action was resolved that names no
    modal navigator (and, if of type NAVIGATE, carries the payload line 84
    reads), that action, with the type lines 82-106 leave it, is dispatched
    and [reset] is not called. *)
Theorem linkTo_reset_fallback (K : Constants) (E : Collaborators)
    (navigation : Navigation) (path : string)
    (typeHint : option string) (isActiveRoute : option bool) :
  (getActionFromState E (getStateFromPath E path) = None ->
   linkTo K E (Some navigation) path typeHint isActiveRoute =
   (reads E navigation path ++ [ Reset (getStateFromPath E path) ],
    Returned tt) /\
   calls isDispatch
     (trace (linkTo K E (Some navigation) path typeHint isActiveRoute)) = 0)
  /\
  (forall resolved,
     getActionFromState E (getStateFromPath E path) = Some resolved ->
     targetsModalNavigator K resolved = false ->
     (type resolved = ACTION_TYPE_NAVIGATE K -> payload resolved <> None) ->
     exists ty,
       overrideType K E navigation (getState (rootOf navigation))
         (getStateFromPath E path) typeHint resolved
       = ret (setType resolved ty, navigation) /\
       linkTo K E (Some navigation) path typeHint isActiveRoute =
       (reads E navigation path ++ [ Dispatch (setType resolved ty) ],
        Returned tt) /\
       calls isReset
         (trace (linkTo K E (Some navigation) path typeHint isActiveRoute))
       = 0).
Proof.
  split.
  - intros Hres.
    assert (Hrun : linkTo K E (Some navigation) path typeHint isActiveRoute =
                   (reads E navigation path ++
                    [ Reset (getStateFromPath E path) ], Returned tt)).
    { rewrite linkTo_run, Hres. reflexivity. }
    split; [exact Hrun|]. rewrite Hrun. unfold trace. cbn [fst].
    rewrite calls_app, calls_reads by reflexivity. reflexivity.
  - intros resolved Hres Hmodal Hpayload.
    destruct (overrideType_not_modal K E navigation
                (getState (rootOf navigation)) (getStateFromPath E path)
                typeHint resolved Hmodal Hpayload) as (ty & Hov).
    exists ty.
    assert (Hrun : linkTo K E (Some navigation) path typeHint isActiveRoute =
                   (reads E navigation path ++
                    [ Dispatch (setType resolved ty) ], Returned tt)).
    { rewrite (linkTo_overridden K E navigation navigation path _ _ resolved
                 _ [] Hres Hov).
      unfold dispatchOrReset.
      rewrite targetsModalNavigator_setType, Hmodal. unfold after, call.
      cbn [fst snd]. now rewrite app_nil_r. }
    repeat split; [exact Hov | exact Hrun |]. rewrite Hrun.
    unfold trace. cbn [fst].
    rewrite calls_app, calls_reads by reflexivity. reflexivity.
Qed.

Lemma linkTo_reset_fallback_witness :
  linkTo appConstants unresolvedLinks (Some (screenIn rootAtHome))
    "settings/profile" None None
  = ([ GetParent; GetParent; GetState; GetStateFromPath "settings/profile";
       GetActionFromState profileState; Reset profileState ],
     Returned tt) /\
  exists ty,
    linkTo appConstants reportLinks
      (Some (screenIn rootAtHome)) "r/99" (Some "UP") None
    = ([ GetParent; GetParent; GetState; GetStateFromPath "r/99";
         GetActionFromState reportState;
         Dispatch (setType reportAction ty) ],
       Returned tt).
Proof.
  split.
  - apply (proj1 (linkTo_reset_fallback appConstants unresolvedLinks
                    (screenIn rootAtHome) "settings/profile" None None)).
    reflexivity.
  - destruct (proj2 (linkTo_reset_fallback appConstants
                       reportLinks
                       (screenIn rootAtHome) "r/99" (Some "UP") None)
                reportAction eq_refl eq_refl)
      as (ty & _ & Hrun & _); [discriminate|].
    exists ty. exact Hrun.
Defined.

(** C8.  Called with no navigation object, [linkTo] throws at once: it has
    made no call on any collaborator, so it has parsed no path, read no
    state, dismissed, dispatched and reset nothing. *)
Theorem linkTo_requires_navigation (K : Constants) (E : Collaborators)
    (path : string) (typeHint : option string)
    (isActiveRoute : option bool) :
  trace (linkTo K E None path typeHint isActiveRoute) = [] /\
  completion (linkTo K E None path typeHint isActiveRoute) =
  Thrown (Error noNavigationMessage).
Proof. split; reflexivity. Qed.

(** C10.  [getMinimalAction] returns an action, of the input's type, on
    every tree whose active branch is indexed all the way down.  When the
    resolved action names a modal navigator, [linkTo] takes neither the
    direct dispatch of line 128 nor the reset of line 130: after lines
    82-106 it reads the root state and either dispatches the minimal action
    and returns, or lets through what [getMinimalAction] threw; on an
    indexed active branch it dispatches the minimal action and returns. *)
Theorem linkTo_modal_dispatches_minimal (K : Constants) (E : Collaborators)
    (navigation : Navigation)
    (path : string) (typeHint : option string) (isActiveRoute : option bool)
    (resolved : NavigationAction) :
  getActionFromState E (getStateFromPath E path) = Some resolved ->
  targetsModalNavigator K resolved = true ->
  (forall action tree,
     activeBranchIndexed tree ->
     exists minimalAction,
       getMinimalAction action tree = Returned minimalAction /\
       type minimalAction = type action) /\
  exists t ty navigation',
    overrideType K E navigation (getState (rootOf navigation))
      (getStateFromPath E path) typeHint resolved
    = (t, Returned (setType resolved ty, navigation')) /\
    linkTo K E (Some navigation) path typeHint isActiveRoute =
    after (reads E navigation path ++ t)
      (match getMinimalAction (setType resolved ty)
               (getRootState navigation') with
       | Returned minimalAction =>
           ([ GetRootState;
              Dispatch (forceType K typeHint isActiveRoute minimalAction) ],
            Returned tt)
       | Thrown e => ([ GetRootState ], Thrown e)
       end) /\
    calls isReset
      (trace (linkTo K E (Some navigation) path typeHint isActiveRoute)) = 0 /\
    (activeBranchIndexed (getRootState navigation') ->
     exists minimalAction,
       getMinimalAction (setType resolved ty) (getRootState navigation')
       = Returned minimalAction /\
       linkTo K E (Some navigation) path typeHint isActiveRoute =
       (reads E navigation path ++ t ++
        [ GetRootState;
          Dispatch (forceType K typeHint isActiveRoute minimalAction) ],
        Returned tt)).
Proof.
  intros Hres Hmodal.
  split; [intros action tree Hix; now apply getMinimalAction_indexed|].
  assert (Hp : exists p, payload resolved = Some p).
  { unfold targetsModalNavigator in Hmodal.
    destruct (payload resolved); [eauto | discriminate]. }
  destruct Hp as (p & Hp).
  destruct (overrideType_returns K E navigation (getState (rootOf navigation))
              (getStateFromPath E path) typeHint resolved p Hp)
    as (t & ty & navigation' & Hov & Hcalls).
  exists t, ty, navigation'.
  assert (Hrun : linkTo K E (Some navigation) path typeHint isActiveRoute =
    after (reads E navigation path ++ t)
      (match getMinimalAction (setType resolved ty)
               (getRootState navigation') with
       | Returned minimalAction =>
           ([ GetRootState;
              Dispatch (forceType K typeHint isActiveRoute minimalAction) ],
            Returned tt)
       | Thrown e => ([ GetRootState ], Thrown e)
       end)).
  { rewrite (linkTo_overridden K E navigation navigation' path _ _ resolved
               _ t Hres Hov).
    now rewrite dispatchOrReset_modal
      by now rewrite targetsModalNavigator_setType. }
  repeat split; [exact Hov | exact Hrun | |].
  - rewrite Hrun, trace_after, !calls_app, calls_reads by reflexivity.
    assert (Ht : calls isReset t = 0)
      by (destruct Hcalls as [[-> _]|[-> _]]; reflexivity).
    rewrite Ht. now destruct (getMinimalAction _ _).
  - intros Hix.
    destruct (getMinimalAction_indexed _ Hix (setType resolved ty))
      as (m & Hm & _).
    exists m. split; [exact Hm|]. rewrite Hrun, Hm. unfold after.
    cbn [fst snd]. now rewrite <- app_assoc.
Qed.

Lemma rootWithRightModal_indexed : activeBranchIndexed rootWithRightModal.
Proof.
  eapply indexed_node; [reflexivity | reflexivity |].
  eapply indexed_node; [reflexivity | reflexivity |].
  eapply indexed_leaf; reflexivity.
Qed.

Lemma linkTo_modal_dispatches_minimal_witness :
  exists minimalAction,
    getMinimalAction profileAction rootWithRightModal
    = Returned minimalAction /\
    linkTo appConstants profileLinks
      (Some (containerOf rootWithRightModal)) "settings/profile" None None
    = ([ GetParent; GetState; GetStateFromPath "settings/profile";
         GetActionFromState profileState; GetRootState;
         Dispatch minimalAction ],
       Returned tt).
Proof.
  destruct (linkTo_modal_dispatches_minimal appConstants profileLinks
              (containerOf rootWithRightModal) "settings/profile" None None
              profileAction eq_refl eq_refl)
    as (_ & t & ty & navigation' & Hov & _ & _ & Hindexed).
  assert (Hrules :
            overrideType appConstants profileLinks
              (containerOf rootWithRightModal)
              (getState (rootOf (containerOf rootWithRightModal)))
              profileState None profileAction
            = ([], Returned (profileAction, containerOf rootWithRightModal)))
    by reflexivity.
  change (getStateFromPath profileLinks
            "settings/profile") with profileState in Hov.
  rewrite Hrules in Hov. injection Hov as <- <- <-.
  destruct (Hindexed rootWithRightModal_indexed) as (m & Hm & Hrun).
  exists m. split; [exact Hm | exact Hrun].
Defined.

(** C10, as stated for every state, fails: on a root state whose right
    modal carries a partial nested state the loop descends once and then
    reads [routes[-1].name]; [getMinimalAction] throws, and [linkTo], called
    for an action that names the right modal, dispatches nothing. *)
Lemma linkTo_modal_partial_state_throws :
  targetsModalNavigator appConstants profileAction = true /\
  getMinimalAction profileAction rootWithPartialModal = Thrown TypeError /\
  linkTo appConstants profileLinks
    (Some (containerOf rootWithPartialModal)) "settings/profile" None None
  = ([ GetParent; GetState; GetStateFromPath "settings/profile";
       GetActionFromState profileState; GetRootState ],
     Thrown TypeError).
Proof. repeat split; vm_compute; reflexivity. Qed.

(** ** More about the loop *)

Lemma iteration_Continue_inv (a a' : NavigationAction)
    (s s' : NavigationState) :
  iteration a s = Continue a' s' ->
  exists p r,
    payload a = Some p /\ hasProp "name" p = true /\
    activeRoute s = Some r /\ getProp "name" p = JString (name r) /\
    state r = Some s' /\ a' = smallerAction a p (key s').
Proof.
  unfold iteration. destruct (payload a) as [p|]; [|discriminate].
  destruct (hasProp "name" p) eqn:Hh; [|discriminate]. cbn [negb].
  destruct (activeRoute s) as [r|]; [|discriminate].
  destruct (strictEqStr _ _) eqn:Hn; [|discriminate]. cbn [negb].
  destruct (state r) as [n|] eqn:Hs; [|discriminate].
  intros [= <- <-]. exists p, r. apply strictEqStr_Some in Hn. auto 6.
Qed.

Lemma iteration_Raise_inv (a : NavigationAction) (s : NavigationState)
    (e : JSError) :
  iteration a s = Raise e <->
  e = TypeError /\
  exists p, payload a = Some p /\ hasProp "name" p = true /\
            activeRoute s = None.
Proof.
  unfold iteration. split.
  - destruct (payload a) as [p|]; [|discriminate].
    destruct (hasProp "name" p) eqn:Hh; [|discriminate]. cbn [negb].
    destruct (activeRoute s) as [r|].
    + destruct (negb _); [discriminate|].
      destruct (state r); discriminate.
    + intros [= <-]. eauto.
  - intros (-> & p & Hp & Hh & Hr). now rewrite Hp, Hh, Hr.
Qed.

Lemma iteration_lower (a a' : NavigationAction) (s s' : NavigationState) :
  iteration a s = Continue a' s' -> height s' < height s.
Proof.
  intros H. apply iteration_Continue_inv in H.
  destruct H as (p & r & _ & _ & Hr & _ & Hs & _).
  destruct s as [rs i k]. unfold activeRoute, at_index in Hr.
  cbn [routes index] in Hr. destruct (_ <? 0)%Z; [discriminate|].
  apply nth_error_In in Hr. cbn [height]. apply -> Nat.succ_le_mono.
  induction rs as [|r0 rs IH]; [contradiction|].
  simpl. destruct Hr as [->|Hin].
  - destruct r as [rn rk rp ro]. simpl in Hs. subst ro. lia.
  - specialize (IH Hin). lia.
Qed.

Lemma reaches_front (a0 a1 b : NavigationAction)
    (s0 s1 n : NavigationState) :
  iteration a0 s0 = Continue a1 s1 -> reaches a1 s1 b n -> reaches a0 s0 b n.
Proof.
  intros H R. induction R as [|a s a' s' _ IH Hit].
  - eapply reaches_turn; [apply reaches_start | exact H].
  - eapply reaches_turn; [exact IH | exact Hit].
Qed.

(** The loop comes to a last turn, which breaks or raises. *)
Lemma getMinimalAction_last_turn (a : NavigationAction) (s : NavigationState) :
  exists b n,
    reaches a s b n /\
    match iteration b n with
    | Break => getMinimalAction a s = Returned b
    | Raise e => getMinimalAction a s = Thrown e
    | Continue _ _ => False
    end.
Proof.
  remember (height s) as h eqn:Hh. revert a s Hh.
  induction h as [h IH] using lt_wf_ind. intros a s ->.
  destruct (iteration a s) as [|e|a' s'] eqn:Hit.
  - exists a, s. split; [apply reaches_start|].
    now rewrite Hit, getMinimalAction_loop, Hit.
  - exists a, s. split; [apply reaches_start|].
    now rewrite Hit, getMinimalAction_loop, Hit.
  - destruct (IH (height s') (iteration_lower _ _ _ _ Hit) a' s' eq_refl)
      as (b & n & R & Hend).
    exists b, n. split; [eapply reaches_front; eauto|].
    rewrite getMinimalAction_loop, Hit. exact Hend.
Qed.

Lemma reaches_type (a b : NavigationAction) (s n : NavigationState) :
  reaches a s b n -> type b = type a.
Proof.
  induction 1 as [|b n b' n' _ IH Hit]; [reflexivity|].
  apply iteration_Continue_inv in Hit.
  destruct Hit as (p & r & _ & _ & _ & _ & _ & ->). exact IH.
Qed.

(** What the loop holds when it evaluates its condition: the input and the
    tree, or the action rebuilt [k] times and the node [k] levels down. *)
Lemma reaches_shape (a b : NavigationAction) (s n : NavigationState) :
  reaches a s b n ->
  (b = a /\ n = s) \/
  exists k p,
    0 < k /\ payload a = Some p /\ nodeAt k s = Some n /\
    b = {| type := type a; payload := Some (payloadAt k p);
           source := None; target := key n |}.
Proof.
  induction 1 as [|b n b' n' _ IH Hit]; [now left|]. right.
  apply iteration_Continue_inv in Hit.
  destruct Hit as (p' & r & Hp' & _ & Hr & _ & Hs & ->).
  destruct IH as [[-> ->] | (k & p & Hk & Hp & Hnode & ->)].
  - exists 1, p'. split; [lia|]. split; [exact Hp'|]. split; [|reflexivity].
    cbn [nodeAt]. now rewrite Hr, Hs.
  - cbn [payload] in Hp'. injection Hp' as <-.
    exists (S k), p. split; [lia|]. split; [exact Hp|].
    split; [|reflexivity]. eapply nodeAt_snoc; eauto.
Qed.

Lemma optProp_not_object (k : string) (v : JSValue) :
  (forall o, v <> JObject o) -> optProp k v = JUndefined.
Proof. intros H. destruct v; try reflexivity. now destruct (H props). Qed.

(** X1.  Whatever action [getMinimalAction] returns has the type of the
    input action: the loop rebuilds the payload and the target, never the
    type. *)
Theorem getMinimalAction_keeps_type (action result : NavigationAction)
    (tree : NavigationState) :
  getMinimalAction action tree = Returned result ->
  type result = type action.
Proof.
  intros H. destruct (getMinimalAction_last_turn action tree)
    as (b & n & R & Hend).
  destruct (iteration b n); [|congruence|contradiction].
  rewrite Hend in H. injection H as <-. eapply reaches_type; eauto.
Qed.

Lemma getMinimalAction_keeps_type_witness :
  type minimalProfileAction = type profileAction.
Proof.
  apply (getMinimalAction_keeps_type profileAction minimalProfileAction
           rootWithRightModal).
  vm_compute. reflexivity.
Defined.

(** X2.  An action [getMinimalAction] returns is the input action itself,
    or, for some [k >= 1], the action of the input's type with no source,
    whose payload is the triple [{name: screen, params: params, path: path}]
    read off the input payload's [params] taken [k] times, and whose target
    is the key of the node [k] levels down the active branch. *)
Theorem getMinimalAction_result_shape (action result : NavigationAction)
    (tree : NavigationState) :
  getMinimalAction action tree = Returned result ->
  result = action \/
  exists k p node,
    0 < k /\ payload action = Some p /\ nodeAt k tree = Some node /\
    result = {| type := type action;
                payload := Some [ ("name", optProp "screen" (paramsAt k p));
                                  ("params", optProp "params" (paramsAt k p));
                                  ("path", optProp "path" (paramsAt k p)) ];
                source := None; target := key node |}.
Proof.
  intros H. destruct (getMinimalAction_last_turn action tree)
    as (b & n & R & Hend).
  destruct (iteration b n); [|congruence|contradiction].
  rewrite Hend in H. injection H as <-.
  destruct (reaches_shape _ _ _ _ R)
    as [[-> _] | (k & p & Hk & Hp & Hnode & ->)].
  - now left.
  - right. exists k, p, n. destruct k as [|k]; [lia|].
    rewrite payloadAt_triple. auto.
Qed.

Lemma getMinimalAction_result_shape_witness :
  minimalProfileAction = profileAction \/
  exists k p node,
    0 < k /\ payload profileAction = Some p /\
    nodeAt k rootWithRightModal = Some node /\
    minimalProfileAction =
    {| type := type profileAction;
       payload := Some [ ("name", optProp "screen" (paramsAt k p));
                         ("params", optProp "params" (paramsAt k p));
                         ("path", optProp "path" (paramsAt k p)) ];
       source := None; target := key node |}.
Proof.
  apply (getMinimalAction_result_shape profileAction minimalProfileAction
           rootWithRightModal).
  vm_compute. reflexivity.
Defined.

(** X3.  [getMinimalAction] throws exactly when the loop comes, with a
    payload that has a [name], to a state with no route at its index; what
    it throws is a TypeError. *)
Theorem getMinimalAction_throws_iff (action : NavigationAction)
    (tree : NavigationState) (e : JSError) :
  getMinimalAction action tree = Thrown e <->
  e = TypeError /\
  exists held node p,
    reaches action tree held node /\ payload held = Some p /\
    hasProp "name" p = true /\ activeRoute node = None.
Proof.
  split.
  - intros H. destruct (getMinimalAction_last_turn action tree)
      as (b & n & R & Hend).
    destruct (iteration b n) as [|e'|] eqn:Hit; [congruence| |contradiction].
    rewrite Hend in H. injection H as ->.
    apply iteration_Raise_inv in Hit. destruct Hit as (-> & p & Hp & Hh & Hr).
    split; [reflexivity|]. exists b, n, p. auto.
  - intros (-> & held & node & p & R & Hp & Hh & Hr).
    rewrite (reaches_result _ _ _ _ R), getMinimalAction_loop.
    now rewrite (proj2 (iteration_Raise_inv held node TypeError))
      by (split; eauto).
Qed.

Lemma getMinimalAction_throws_iff_witness :
  getMinimalAction profileAction rootWithPartialModal = Thrown TypeError.
Proof.
  apply (proj2 (getMinimalAction_throws_iff profileAction
                  rootWithPartialModal TypeError)).
  split; [reflexivity|].
  exists (smallerAction profileAction profilePayload None).
  eexists. eexists. split.
  - eapply reaches_turn; [apply reaches_start | reflexivity].
  - split; [reflexivity | split; reflexivity].
Defined.

(** X4.  When the payload's [params] is not an object, the loop descends at
    most once: [getMinimalAction] returns the input action, or the action
    targeted at the nested state of the matching active route whose payload
    is [{name: undefined, params: undefined, path: undefined}]. *)
Theorem getMinimalAction_without_params (action result : NavigationAction)
    (p : JSObject) (tree : NavigationState) :
  payload action = Some p ->
  (forall o, getProp "params" p <> JObject o) ->
  getMinimalAction action tree = Returned result ->
  result = action \/
  exists node,
    nodeAt 1 tree = Some node /\
    result = {| type := type action; payload := Some emptyPayload;
                source := None; target := key node |}.
Proof.
  intros Hp Hparams H. rewrite getMinimalAction_loop in H.
  destruct (iteration action tree) as [|e|a' s'] eqn:Hit.
  - left. congruence.
  - discriminate.
  - right. exists s'. apply iteration_Continue_inv in Hit.
    destruct Hit as (p' & r & Hp' & _ & Hr & _ & Hs & ->).
    rewrite Hp in Hp'. injection Hp' as <-.
    split; [cbn [nodeAt]; now rewrite Hr, Hs|].
    rewrite getMinimalAction_loop in H. unfold iteration in H.
    cbn [payload smallerAction] in H. unfold smallerPayload in H.
    rewrite !(optProp_not_object _ _ Hparams) in H.
    cbn [hasProp getProp String.eqb Ascii.eqb Bool.eqb orb negb] in H.
    destruct (activeRoute s') as [r'|]; [|discriminate].
    cbn [strictEqStr negb] in H. injection H as <-.
    unfold smallerAction, smallerPayload.
    now rewrite !(optProp_not_object _ _ Hparams).
Qed.

Lemma getMinimalAction_without_params_witness :
  getMinimalAction bareModalAction rootWithRightModal =
  Returned {| type := "NAVIGATE"; payload := Some emptyPayload;
              source := None; target := Some "stack-rhp" |}.
Proof.
  destruct (getMinimalAction bareModalAction rootWithRightModal)
    as [result|e] eqn:H; [|vm_compute in H; discriminate H].
  destruct (getMinimalAction_without_params bareModalAction result
              [ ("name", JString "RightModalNavigator") ] rootWithRightModal
              eq_refl) as [Hsame | (node & Hnode & Hresult)].
  - intros o. discriminate.
  - exact H.
  - vm_compute in H. rewrite Hsame in H. discriminate H.
  - cbn in Hnode. injection Hnode as <-. now rewrite Hresult.
Defined.

(** X5.  [getMinimalAction] reads the tree along its active branch only: on
    two trees with the same active branch it gives the same result,
    whatever the other routes, the keys and params of the routes and the
    key of the root are. *)
Theorem getMinimalAction_active_branch_only (tree tree' : NavigationState) :
  sameActiveBranch tree tree' ->
  forall action, getMinimalAction action tree = getMinimalAction action tree'.
Proof.
  induction 1 as [s s' Hr Hr' | s s' r r' Hr Hr' Hname Hs Hs'
                 | s s' r r' n n' Hr Hr' Hname Hs Hs' Hkey _ IH];
    intros action;
    rewrite (getMinimalAction_loop action s), (getMinimalAction_loop action s');
    unfold iteration; rewrite Hr, Hr'; try reflexivity;
    rewrite Hs, Hs', <- Hname; try reflexivity.
  destruct (payload action) as [p|]; [|reflexivity].
  destruct (negb (hasProp "name" p)); [reflexivity|].
  destruct (negb (strictEqStr _ _)); [reflexivity|].
  rewrite Hkey. apply IH.
Qed.

Lemma getMinimalAction_active_branch_only_witness :
  getMinimalAction profileAction rootWithRightModal =
  getMinimalAction profileAction rootWithRightModalAfterSearch.
Proof.
  apply (getMinimalAction_active_branch_only rootWithRightModal
           rootWithRightModalAfterSearch).
  eapply same_node; try reflexivity.
  eapply same_node; try reflexivity.
  eapply same_leaf; reflexivity.
Defined.

(** ** More about the run of [linkTo] *)

Section MoreLinkToFacts.

Variable K : Constants.
Variable E : Collaborators.

(** Lines 82-106, case by case: they throw on a NAVIGATE action without
    payload, and otherwise return the action with its own type, PUSH or
    REPLACE, having called [dismissModal] once or nothing at all. *)
Lemma overrideType_cases (navigation : Navigation)
    (rootState : option NavigationState) (state : NavigationState)
    (typeHint : option string) (action : NavigationAction) :
  (type action = ACTION_TYPE_NAVIGATE K /\ payload action = None /\
   overrideType K E navigation rootState state typeHint action
   = ([], Thrown TypeError)) \/
  exists t ty navigation',
    overrideType K E navigation rootState state typeHint action
    = (t, Returned (setType action ty, navigation')) /\
    (ty = type action \/ ty = ACTION_TYPE_PUSH K \/
     ty = ACTION_TYPE_REPLACE K) /\
    (t = [] /\ navigation' = navigation \/
     t = [DismissModal ""] /\ navigation' = dismissModal E "" navigation).
Proof.
  unfold overrideType.
  destruct (String.eqb_spec (type action) (ACTION_TYPE_NAVIGATE K)) as [Hty|_];
    cbn [negb].
  2:{ right. exists [], (type action), navigation.
      rewrite setType_same. auto. }
  destruct (payload action) as [p|]; [right | now left].
  destruct (hintIs typeHint (TYPE_FORCED_UP K)).
  { exists [], (ACTION_TYPE_REPLACE K), navigation. auto 6. }
  destruct (_ && _).
  { exists [], (ACTION_TYPE_PUSH K), navigation. auto 6. }
  destruct (hintIs typeHint (TYPE_UP K)).
  { exists [], (ACTION_TYPE_REPLACE K), navigation. auto 6. }
  destruct (_ && _).
  2:{ exists [], (type action), navigation. rewrite setType_same. auto. }
  destruct (isModalNavigator K _).
  - exists [DismissModal ""], (ACTION_TYPE_PUSH K),
      (dismissModal E "" navigation). auto 6.
  - exists [], (ACTION_TYPE_PUSH K), navigation. auto 6.
Qed.

(** When lines 82-106 dismiss, rule 4 has fired on an open modal. *)
Lemma overrideType_dismissal (navigation : Navigation)
    (rootState : option NavigationState) (state : NavigationState)
    (typeHint : option string) (action : NavigationAction)
    (c : Completion (NavigationAction * Navigation)) (t : list Event) :
  overrideType K E navigation rootState state typeHint action = (t, c) ->
  t <> [] ->
  type action = ACTION_TYPE_NAVIGATE K /\
  hintIs typeHint (TYPE_FORCED_UP K) = false /\
  hintIs typeHint (TYPE_UP K) = false /\
  isModalNavigator K (ofOptString (topRouteName rootState)) = true /\
  exists p,
    payload action = Some p /\
    isModalNavigator K (getProp "name" p) = true /\
    strictEqStr (topRouteName rootState) (getProp "name" p) = false.
Proof.
  unfold overrideType, ret, throw, bind, call.
  destruct (String.eqb_spec (type action) (ACTION_TYPE_NAVIGATE K)) as [Hty|_];
    cbn [negb]; [|intros [= <- _] Hne; now destruct Hne].
  destruct (payload action) as [p|]; [|intros [= <- _] Hne; now destruct Hne].
  destruct (hintIs typeHint (TYPE_FORCED_UP K)); [intros [= <- _] Hne; now destruct Hne|].
  destruct (strictEqStr (Some (CENTRAL_PANE_NAVIGATOR K)) _ && _);
    [intros [= <- _] Hne; now destruct Hne|].
  destruct (hintIs typeHint (TYPE_UP K));
    [intros [= <- _] Hne; now destruct Hne|].
  destruct (isModalNavigator K (getProp "name" p)) eqn:Hm;
    [|intros [= <- _] Hne; now destruct Hne].
  destruct (strictEqStr (topRouteName rootState) _) eqn:Htop;
    [intros [= <- _] Hne; now destruct Hne|].
  destruct (isModalNavigator K (ofOptString _)) eqn:Hopen;
    [|intros [= <- _] Hne; now destruct Hne].
  intros _ _. do 4 (split; [reflexivity || assumption|]).
  exists p. auto.
Qed.

(** Rule 4 on an open modal other than the target. *)
Lemma overrideType_rule4 (navigation : Navigation)
    (rootState : option NavigationState) (state : NavigationState)
    (typeHint : option string) (action : NavigationAction) (p : JSObject) :
  type action = ACTION_TYPE_NAVIGATE K ->
  payload action = Some p ->
  typeHint <> Some (TYPE_FORCED_UP K) ->
  ~ (getProp "name" p = JString (CENTRAL_PANE_NAVIGATOR K) /\
     getTopmostReportId E rootState <> getTopmostReportId E (Some state)) ->
  typeHint <> Some (TYPE_UP K) ->
  isModalNavigator K (getProp "name" p) = true ->
  strictEqStr (topRouteName rootState) (getProp "name" p) = false ->
  isModalNavigator K (ofOptString (topRouteName rootState)) = true ->
  overrideType K E navigation rootState state typeHint action
  = ([DismissModal ""],
     Returned (setType action (ACTION_TYPE_PUSH K),
               dismissModal E "" navigation)).
Proof.
  intros Hty Hp Hforced Hcentral Hup Hmodal HonTop Hopen.
  unfold overrideType. rewrite Hty, String.eqb_refl, Hp. cbn [negb].
  rewrite (hintIs_false _ _ Hforced), (hintIs_false _ _ Hup).
  replace (_ && negb (optStringEqb _ _)) with false.
  2:{ destruct (strictEqStr (Some _) _) eqn:E1; [|reflexivity].
      destruct (optStringEqb _ _) eqn:E2; [reflexivity|].
      exfalso. apply Hcentral. split.
      - now apply strictEqStr_Some.
      - intros Heq. apply optStringEqb_eq in Heq. congruence. }
  rewrite Hmodal, HonTop, Hopen. reflexivity.
Qed.

(** The central-pane rule does not fire. *)
Lemma rule2_off (rootState : option NavigationState) (state : NavigationState)
    (p : JSObject) :
  ~ (getProp "name" p = JString (CENTRAL_PANE_NAVIGATOR K) /\
     getTopmostReportId E rootState <> getTopmostReportId E (Some state)) ->
  strictEqStr (Some (CENTRAL_PANE_NAVIGATOR K)) (getProp "name" p)
  && negb (optStringEqb (getTopmostReportId E rootState)
                        (getTopmostReportId E (Some state))) = false.
Proof.
  intros Hcentral.
  destruct (strictEqStr (Some _) _) eqn:E1; [|reflexivity].
  destruct (optStringEqb _ _) eqn:E2; [reflexivity|].
  exfalso. apply Hcentral. split.
  - now apply strictEqStr_Some.
  - intros Heq. apply optStringEqb_eq in Heq. congruence.
Qed.

(** The calls of lines 108-131 and how they complete. *)
Lemma dispatchOrReset_cases (navigation : Navigation) (state : NavigationState)
    (typeHint : option string) (isActiveRoute : option bool)
    (action : NavigationAction) :
  (targetsModalNavigator K action = false /\
   dispatchOrReset K navigation state typeHint isActiveRoute (Some action)
   = ([Dispatch action], Returned tt)) \/
  (targetsModalNavigator K action = true /\
   exists minimalAction,
     getMinimalAction action (getRootState navigation)
     = Returned minimalAction /\
     dispatchOrReset K navigation state typeHint isActiveRoute (Some action)
     = ([ GetRootState;
          Dispatch (forceType K typeHint isActiveRoute minimalAction) ],
        Returned tt)) \/
  (targetsModalNavigator K action = true /\
   getMinimalAction action (getRootState navigation) = Thrown TypeError /\
   dispatchOrReset K navigation state typeHint isActiveRoute (Some action)
   = ([GetRootState], Thrown TypeError)).
Proof.
  destruct (targetsModalNavigator K action) eqn:Hm.
  - right. rewrite dispatchOrReset_modal by assumption.
    destruct (getMinimalAction action (getRootState navigation))
      as [m|e] eqn:Hmin.
    + left. eauto.
    + right. destruct (getMinimalAction_last_turn action
                         (getRootState navigation)) as (b & n & _ & Hend).
      destruct (iteration b n) as [|e'|] eqn:Hit;
        [congruence | | contradiction].
      apply iteration_Raise_inv in Hit. destruct Hit as (-> & _).
      rewrite Hmin in Hend. injection Hend as ->. auto.
  - left. unfold dispatchOrReset. now rewrite Hm.
Qed.

Lemma forceType_type (typeHint : option string) (isActiveRoute : option bool)
    (m : NavigationAction) :
  type (forceType K typeHint isActiveRoute m) = type m \/
  type (forceType K typeHint isActiveRoute m) = ACTION_TYPE_PUSH K \/
  type (forceType K typeHint isActiveRoute m) = ACTION_TYPE_REPLACE K.
Proof.
  unfold forceType.
  destruct (hintIs typeHint (ACTION_TYPE_REPLACE K)); [auto|].
  destruct (_ && _); auto.
Qed.

(** Every run of [linkTo] on a navigation object has one of five shapes. *)
Lemma linkTo_shapes (navigation : Navigation) (path : string)
    (typeHint : option string) (isActiveRoute : option bool) :
  (getActionFromState E (getStateFromPath E path) = None /\
   linkTo K E (Some navigation) path typeHint isActiveRoute
   = (reads E navigation path ++ [Reset (getStateFromPath E path)],
      Returned tt)) \/
  exists resolved,
    getActionFromState E (getStateFromPath E path) = Some resolved /\
    ((type resolved = ACTION_TYPE_NAVIGATE K /\ payload resolved = None /\
      linkTo K E (Some navigation) path typeHint isActiveRoute
      = (reads E navigation path, Thrown TypeError)) \/
     exists t ty navigation',
       overrideType K E navigation (getState (rootOf navigation))
         (getStateFromPath E path) typeHint resolved
       = (t, Returned (setType resolved ty, navigation')) /\
       (ty = type resolved \/ ty = ACTION_TYPE_PUSH K \/
        ty = ACTION_TYPE_REPLACE K) /\
       (t = [] /\ navigation' = navigation \/
        t = [DismissModal ""] /\
        navigation' = dismissModal E "" navigation) /\
       ((targetsModalNavigator K resolved = false /\
         linkTo K E (Some navigation) path typeHint isActiveRoute
         = (reads E navigation path ++ t ++
            [Dispatch (setType resolved ty)], Returned tt)) \/
        (targetsModalNavigator K resolved = true /\
         exists minimalAction,
           getMinimalAction (setType resolved ty) (getRootState navigation')
           = Returned minimalAction /\
           linkTo K E (Some navigation) path typeHint isActiveRoute
           = (reads E navigation path ++ t ++
              [ GetRootState;
                Dispatch (forceType K typeHint isActiveRoute minimalAction) ],
              Returned tt)) \/
        (targetsModalNavigator K resolved = true /\
         getMinimalAction (setType resolved ty) (getRootState navigation')
         = Thrown TypeError /\
         linkTo K E (Some navigation) path typeHint isActiveRoute
         = (reads E navigation path ++ t ++ [GetRootState],
            Thrown TypeError)))).
Proof.
  destruct (getActionFromState E (getStateFromPath E path))
    as [resolved|] eqn:Hres.
  2:{ left. split; [reflexivity|]. rewrite linkTo_run, Hres. reflexivity. }
  right. exists resolved. split; [reflexivity|].
  destruct (overrideType_cases navigation (getState (rootOf navigation))
              (getStateFromPath E path) typeHint resolved)
    as [(Hty & Hp & Hov) | (t & ty & navigation' & Hov & Htype & Ht)].
  - left. split; [exact Hty|]. split; [exact Hp|].
    rewrite linkTo_run, Hres, Hov. unfold after, bind. cbn [fst snd].
    now rewrite app_nil_r.
  - right. exists t, ty, navigation'.
    split; [exact Hov|]. split; [exact Htype|]. split; [exact Ht|].
    rewrite (linkTo_overridden K E navigation navigation' path typeHint
               isActiveRoute resolved _ t Hres Hov).
    rewrite <- (targetsModalNavigator_setType K resolved ty).
    destruct (dispatchOrReset_cases navigation' (getStateFromPath E path)
                typeHint isActiveRoute (setType resolved ty))
      as [(Hm & Hrun) | [(Hm & m & Hmin & Hrun) | (Hm & Hmin & Hrun)]];
      rewrite Hrun; unfold after; cbn [fst snd]; rewrite <- app_assoc.
    + left. auto.
    + right. left. eauto.
    + right. right. auto.
Qed.

End MoreLinkToFacts.

(** Counts the calls of one kind in the trace of a run of known shape. *)
Ltac count_calls :=
  unfold trace, completion; cbn [fst snd];
  rewrite ?calls_app, ?calls_reads by reflexivity; reflexivity.

(** X6.  When the resolved action has type NAVIGATE, the caller's hint is UP
    and the central-pane rule does not apply, the action's type is rewritten
    to REPLACE and nothing is dismissed, whatever navigator the payload
    names: [linkTo] goes on to line 108 with the action whose type is
    REPLACE and whose payload, source and target are the resolved
    action's. *)
Theorem linkTo_up_replaces (K : Constants) (E : Collaborators)
    (navigation : Navigation) (path : string) (isActiveRoute : option bool)
    (resolved : NavigationAction) (p : JSObject) :
  getActionFromState E (getStateFromPath E path) = Some resolved ->
  type resolved = ACTION_TYPE_NAVIGATE K ->
  payload resolved = Some p ->
  ~ (getProp "name" p = JString (CENTRAL_PANE_NAVIGATOR K) /\
     getTopmostReportId E (getState (rootOf navigation)) <>
     getTopmostReportId E (Some (getStateFromPath E path))) ->
  linkTo K E (Some navigation) path (Some (TYPE_UP K)) isActiveRoute =
  after (reads E navigation path)
    (dispatchOrReset K navigation (getStateFromPath E path)
       (Some (TYPE_UP K)) isActiveRoute
       (Some {| type := ACTION_TYPE_REPLACE K; payload := payload resolved;
                source := source resolved; target := target resolved |})).
Proof.
  intros Hres Hty Hp Hcentral.
  assert (Hov : overrideType K E navigation (getState (rootOf navigation))
                  (getStateFromPath E path) (Some (TYPE_UP K)) resolved
                = ([], Returned ({| type := ACTION_TYPE_REPLACE K;
                                    payload := payload resolved;
                                    source := source resolved;
                                    target := target resolved |},
                                 navigation))).
  { unfold overrideType, setType. rewrite Hty, String.eqb_refl, Hp. cbn [negb].
    destruct (hintIs (Some (TYPE_UP K)) (TYPE_FORCED_UP K)); [reflexivity|].
    rewrite (rule2_off K E _ _ _ Hcentral). cbn [hintIs].
    now rewrite String.eqb_refl. }
  rewrite (linkTo_overridden K E navigation navigation path _ _ resolved
             _ [] Hres Hov).
  now rewrite app_nil_r.
Qed.

Lemma linkTo_up_replaces_witness :
  linkTo appConstants profileLinks (Some (containerOf rootWithLeftModal))
    "settings/profile" (Some "UP") None
  = ([ GetParent; GetState; GetStateFromPath "settings/profile";
       GetActionFromState profileState; GetRootState;
       Dispatch {| type := "REPLACE"; payload := Some profilePayload;
                   source := None; target := None |} ],
     Returned tt).
Proof.
  apply (linkTo_up_replaces appConstants profileLinks
           (containerOf rootWithLeftModal) "settings/profile" None
           profileAction profilePayload); try reflexivity.
  intros [H _]. discriminate H.
Defined.

(** X7.  A resolved action of another type than NAVIGATE is left as it is
    by lines 82-106, whatever the hint, and nothing is dismissed for it:
    [linkTo] goes on to line 108 with the action as resolved. *)
Theorem linkTo_keeps_other_types (K : Constants) (E : Collaborators)
    (navigation : Navigation) (path : string) (typeHint : option string)
    (isActiveRoute : option bool) (resolved : NavigationAction) :
  getActionFromState E (getStateFromPath E path) = Some resolved ->
  type resolved <> ACTION_TYPE_NAVIGATE K ->
  linkTo K E (Some navigation) path typeHint isActiveRoute =
  after (reads E navigation path)
    (dispatchOrReset K navigation (getStateFromPath E path) typeHint
       isActiveRoute (Some resolved)) /\
  calls isDismissModal
    (trace (linkTo K E (Some navigation) path typeHint isActiveRoute)) = 0.
Proof.
  intros Hres Hty.
  assert (Hov : overrideType K E navigation (getState (rootOf navigation))
                  (getStateFromPath E path) typeHint resolved
                = ([], Returned (resolved, navigation))).
  { unfold overrideType.
    destruct (String.eqb_spec (type resolved) (ACTION_TYPE_NAVIGATE K));
      [contradiction | reflexivity]. }
  split.
  - rewrite (linkTo_overridden K E navigation navigation path _ _ resolved
               _ [] Hres Hov).
    now rewrite app_nil_r.
  - now rewrite (linkTo_dismissals K E navigation _ path _ _ resolved _ _
                   Hres Hov).
Qed.

Lemma linkTo_keeps_other_types_witness :
  linkTo appConstants goBackLinks (Some (screenIn rootWithLeftModal))
    "settings/profile" (Some "FORCED_UP") None
  = ([ GetParent; GetParent; GetState; GetStateFromPath "settings/profile";
       GetActionFromState profileState; Dispatch goBackAction ],
     Returned tt) /\
  calls isDismissModal
    (trace (linkTo appConstants goBackLinks
              (Some (screenIn rootWithLeftModal)) "settings/profile"
              (Some "FORCED_UP") None)) = 0.
Proof.
  apply (linkTo_keeps_other_types appConstants goBackLinks
           (screenIn rootWithLeftModal) "settings/profile"
           (Some "FORCED_UP") None goBackAction).
  - reflexivity.
  - discriminate.
Defined.

(** X8.  In a run of [linkTo] on a navigation object in which every call on
    a collaborator returns: when [linkTo] returns it has called exactly one
    of [dispatch] and [reset], once; when it throws, which is then an error
    of its own, it has called neither.  [reset] is the one called exactly
    when no action was resolved. *)
Theorem linkTo_one_dispatch_or_reset (K : Constants) (E : Collaborators)
    (navigation : Navigation) (path : string) (typeHint : option string)
    (isActiveRoute : option bool) :
  calls isDispatch
    (trace (linkTo K E (Some navigation) path typeHint isActiveRoute)) +
  calls isReset
    (trace (linkTo K E (Some navigation) path typeHint isActiveRoute))
  = match completion (linkTo K E (Some navigation) path typeHint
                        isActiveRoute) with
    | Returned _ => 1
    | Thrown _ => 0
    end /\
  calls isReset
    (trace (linkTo K E (Some navigation) path typeHint isActiveRoute))
  = match getActionFromState E (getStateFromPath E path) with
    | Some _ => 0
    | None => 1
    end.
Proof.
  destruct (linkTo_shapes K E navigation path typeHint isActiveRoute)
    as [(Hres & Hrun) | (resolved & Hres & [(_ & _ & Hrun) |
         (t & ty & n' & _ & _ & Ht &
          [(_ & Hrun) | [(_ & m & _ & Hrun) | (_ & _ & Hrun)]])])];
    rewrite Hrun, Hres; try (split; count_calls);
    destruct Ht as [[-> _] | [-> _]]; split; count_calls.
Qed.

(** X9.  In a run of [linkTo] on a navigation object in which every call on
    a collaborator returns, [linkTo] throws nothing but a TypeError, and in
    two cases only.  Either the resolved action has type NAVIGATE and no
    payload, and nothing was called after the reads.  Or the action that
    lines 82-106 leave names a modal navigator and [getMinimalAction] throws
    on that action and the root state read on line 109, the read being the
    last call of the run. *)
Theorem linkTo_throws_only (K : Constants) (E : Collaborators)
    (navigation : Navigation) (path : string) (typeHint : option string)
    (isActiveRoute : option bool) (e : JSError) :
  completion (linkTo K E (Some navigation) path typeHint isActiveRoute)
  = Thrown e ->
  e = TypeError /\
  exists resolved,
    getActionFromState E (getStateFromPath E path) = Some resolved /\
    ((type resolved = ACTION_TYPE_NAVIGATE K /\ payload resolved = None /\
      trace (linkTo K E (Some navigation) path typeHint isActiveRoute)
      = reads E navigation path) \/
     (exists t action navigation',
        overrideType K E navigation (getState (rootOf navigation))
          (getStateFromPath E path) typeHint resolved
        = (t, Returned (action, navigation')) /\
        targetsModalNavigator K action = true /\
        getMinimalAction action (getRootState navigation')
        = Thrown TypeError /\
        trace (linkTo K E (Some navigation) path typeHint isActiveRoute)
        = reads E navigation path ++ t ++ [GetRootState])).
Proof.
  destruct (linkTo_shapes K E navigation path typeHint isActiveRoute)
    as [(Hres & Hrun) | (resolved & Hres & [(Hty & Hp & Hrun) |
         (t & ty & n' & Hov & _ & _ &
          [(_ & Hrun) | [(_ & m & _ & Hrun) | (Hm & Hmin & Hrun)]])])];
    rewrite Hrun; unfold completion, trace; cbn [fst snd]; try discriminate;
    intros [= <-]; (split; [reflexivity|]); exists resolved;
    (split; [exact Hres|]).
  - left. auto.
  - right. exists t, (setType resolved ty), n'.
    split; [exact Hov|]. split; [|auto].
    now rewrite targetsModalNavigator_setType.
Qed.

Lemma linkTo_throws_only_witness :
  TypeError = TypeError /\
  exists resolved,
    getActionFromState profileLinks (getStateFromPath profileLinks
                                       "settings/profile") = Some resolved /\
    ((type resolved = "NAVIGATE" /\ payload resolved = None /\
      trace (linkTo appConstants profileLinks
               (Some (containerOf rootWithPartialModal)) "settings/profile"
               None None)
      = reads profileLinks (containerOf rootWithPartialModal)
          "settings/profile") \/
     (exists t action navigation',
        overrideType appConstants profileLinks
          (containerOf rootWithPartialModal)
          (getState (rootOf (containerOf rootWithPartialModal)))
          (getStateFromPath profileLinks "settings/profile") None resolved
        = (t, Returned (action, navigation')) /\
        targetsModalNavigator appConstants action = true /\
        getMinimalAction action (getRootState navigation')
        = Thrown TypeError /\
        trace (linkTo appConstants profileLinks
                 (Some (containerOf rootWithPartialModal)) "settings/profile"
                 None None)
        = reads profileLinks (containerOf rootWithPartialModal)
            "settings/profile" ++ t ++ [GetRootState])).
Proof.
  apply (linkTo_throws_only appConstants profileLinks
           (containerOf rootWithPartialModal) "settings/profile" None None
           TypeError).
  vm_compute. reflexivity.
Defined.

Lemma hintIs_same (c : string) : hintIs (Some c) c = true.
Proof. apply String.eqb_refl. Qed.

Lemma isModalNavigator_targets (K : Constants) (action : NavigationAction)
    (p : JSObject) :
  payload action = Some p ->
  isModalNavigator K (getProp "name" p) = true ->
  targetsModalNavigator K action = true.
Proof.
  intros Hp Hm. unfold targetsModalNavigator. rewrite Hp, Hm.
  rewrite getProp_hasProp; [reflexivity|].
  unfold isModalNavigator in Hm. destruct (getProp "name" p); discriminate.
Qed.

Lemma parentCalls_In (ev : Event) (navigation : Navigation) :
  In ev (parentCalls navigation) -> ev = GetParent.
Proof.
  revert navigation. fix IH 1. intros [[current|] st rs].
  - change (parentCalls (mkNavigation (Some current) st rs))
      with (GetParent :: parentCalls current).
    intros [Heq|Hin]; [now symmetry | exact (IH current Hin)].
  - clear IH. intros [Heq|[]]. now symmetry.
Qed.

Lemma reads_no_dispatch (E : Collaborators) (navigation : Navigation)
    (path : string) (a : NavigationAction) :
  ~ In (Dispatch a) (reads E navigation path).
Proof.
  unfold reads. intros H. apply in_app_or in H. destruct H as [H|H].
  - apply parentCalls_In in H. discriminate.
  - cbn in H. intuition discriminate.
Qed.

(** X10.  A run of [linkTo] calls [dismissModal] at most once, and when it
    does the resolved action has type NAVIGATE, the hint is neither
    FORCED_UP nor UP, and the payload names a modal navigator other than the
    topmost root route, which is a modal navigator too. *)
Theorem linkTo_dismisses_at_most_once (K : Constants) (E : Collaborators)
    (navigation : Navigation) (path : string) (typeHint : option string)
    (isActiveRoute : option bool) :
  calls isDismissModal
    (trace (linkTo K E (Some navigation) path typeHint isActiveRoute)) <= 1 /\
  (calls isDismissModal
     (trace (linkTo K E (Some navigation) path typeHint isActiveRoute)) = 1 ->
   exists resolved p,
     getActionFromState E (getStateFromPath E path) = Some resolved /\
     type resolved = ACTION_TYPE_NAVIGATE K /\
     payload resolved = Some p /\
     typeHint <> Some (TYPE_FORCED_UP K) /\
     typeHint <> Some (TYPE_UP K) /\
     isModalNavigator K (getProp "name" p) = true /\
     isModalNavigator K
       (ofOptString (topRouteName (getState (rootOf navigation)))) = true /\
     strictEqStr (topRouteName (getState (rootOf navigation)))
       (getProp "name" p) = false).
Proof.
  destruct (linkTo_shapes K E navigation path typeHint isActiveRoute)
    as [(Hres & Hrun) | (resolved & Hres & [(_ & _ & Hrun) |
         (t & ty & n' & Hov & _ & Ht & Hrun)])].
  - rewrite Hrun. unfold trace. cbn [fst].
    rewrite calls_app, calls_reads by reflexivity.
    split; [cbn; lia | discriminate].
  - rewrite Hrun. unfold trace. cbn [fst].
    rewrite calls_reads by reflexivity.
    split; [lia | discriminate].
  - rewrite (linkTo_dismissals K E navigation n' path typeHint isActiveRoute
               resolved _ t Hres Hov).
    clear Hrun. destruct Ht as [[-> _] | [-> _]].
    + split; [cbn; lia | discriminate].
    + split; [cbn; lia | intros _].
      destruct (overrideType_dismissal K E _ _ _ _ _ _ _ Hov)
        as (Hty & Hforced & Hup & Hopen & p & Hp & Hm & Htop);
        [discriminate|].
      exists resolved, p. repeat (split; [assumption|]).
      split; [|split; [|auto]]; intros ->;
        rewrite hintIs_same in *; discriminate.
Qed.

Lemma linkTo_dismisses_at_most_once_witness :
  exists resolved p,
    getActionFromState profileLinks
      (getStateFromPath profileLinks "settings/profile") = Some resolved /\
    type resolved = "NAVIGATE" /\
    payload resolved = Some p /\
    None <> Some "FORCED_UP" /\
    None <> Some "UP" /\
    isModalNavigator appConstants (getProp "name" p) = true /\
    isModalNavigator appConstants
      (ofOptString (topRouteName (Some rootWithLeftModal))) = true /\
    strictEqStr (topRouteName (Some rootWithLeftModal)) (getProp "name" p)
    = false.
Proof.
  apply (proj2 (linkTo_dismisses_at_most_once appConstants profileLinks
                  (containerOf rootWithLeftModal) "settings/profile"
                  None None)).
  vm_compute. reflexivity.
Defined.

(** X11.  When rule 4 dismisses an open modal, the minimal action is
    computed on the root state read after the dismissal, and that is the
    action dispatched: the run is the reads, [dismissModal],
    [getRootState], [dispatch]. *)
Theorem linkTo_minimizes_after_dismissal (K : Constants) (E : Collaborators)
    (navigation : Navigation) (path : string) (typeHint : option string)
    (isActiveRoute : option bool)
    (resolved minimalAction : NavigationAction) (p : JSObject) :
  getActionFromState E (getStateFromPath E path) = Some resolved ->
  type resolved = ACTION_TYPE_NAVIGATE K ->
  payload resolved = Some p ->
  typeHint <> Some (TYPE_FORCED_UP K) ->
  ~ (getProp "name" p = JString (CENTRAL_PANE_NAVIGATOR K) /\
     getTopmostReportId E (getState (rootOf navigation)) <>
     getTopmostReportId E (Some (getStateFromPath E path))) ->
  typeHint <> Some (TYPE_UP K) ->
  isModalNavigator K (getProp "name" p) = true ->
  strictEqStr (topRouteName (getState (rootOf navigation)))
    (getProp "name" p) = false ->
  isModalNavigator K
    (ofOptString (topRouteName (getState (rootOf navigation)))) = true ->
  getMinimalAction (setType resolved (ACTION_TYPE_PUSH K))
    (getRootState (dismissModal E "" navigation))
  = Returned minimalAction ->
  linkTo K E (Some navigation) path typeHint isActiveRoute =
  (reads E navigation path ++
   [ DismissModal ""; GetRootState;
     Dispatch (forceType K typeHint isActiveRoute minimalAction) ],
   Returned tt).
Proof.
  intros Hres Hty Hp Hforced Hcentral Hup Hmodal HonTop Hopen Hmin.
  rewrite (linkTo_overridden K E navigation _ path _ _ resolved _ _ Hres
             (overrideType_rule4 K E navigation _ _ _ _ p Hty Hp Hforced
                Hcentral Hup Hmodal HonTop Hopen)).
  rewrite dispatchOrReset_modal, Hmin
    by (now apply (isModalNavigator_targets K _ p)).
  unfold after. cbn [fst snd]. now rewrite <- app_assoc.
Qed.

Lemma linkTo_minimizes_after_dismissal_witness :
  linkTo appConstants profileLinks (Some (containerOf rootWithLeftModal))
    "settings/profile" None None
  = ([ GetParent; GetState; GetStateFromPath "settings/profile";
       GetActionFromState profileState; DismissModal ""; GetRootState;
       Dispatch (setType profileAction "PUSH") ],
     Returned tt).
Proof.
  apply (linkTo_minimizes_after_dismissal appConstants profileLinks
           (containerOf rootWithLeftModal) "settings/profile" None None
           profileAction (setType profileAction "PUSH") profilePayload);
    try reflexivity; try discriminate.
  intros [H _]. discriminate H.
Defined.

(** X12.  The forcing rules of lines 114-121 leave the minimal action as
    [getMinimalAction] returned it when the hint is not REPLACE and either
    is not PUSH or comes with [isActiveRoute] true: that action is
    dispatched unchanged. *)
Theorem linkTo_dispatches_minimal_unforced (K : Constants) (E : Collaborators)
    (navigation navigation' : Navigation) (path : string)
    (typeHint : option string) (isActiveRoute : option bool)
    (resolved action minimalAction : NavigationAction) (t : list Event) :
  getActionFromState E (getStateFromPath E path) = Some resolved ->
  overrideType K E navigation (getState (rootOf navigation))
    (getStateFromPath E path) typeHint resolved
  = (t, Returned (action, navigation')) ->
  targetsModalNavigator K action = true ->
  getMinimalAction action (getRootState navigation') = Returned minimalAction ->
  isActiveRoute = Some true \/ typeHint <> Some (ACTION_TYPE_PUSH K) ->
  typeHint <> Some (ACTION_TYPE_REPLACE K) ->
  linkTo K E (Some navigation) path typeHint isActiveRoute =
  (reads E navigation path ++ t ++ [ GetRootState; Dispatch minimalAction ],
   Returned tt).
Proof.
  intros Hres Hov Hmodal Hmin Hpush Hreplace.
  rewrite (linkTo_overridden K E navigation navigation' path _ _ resolved
             _ t Hres Hov).
  rewrite dispatchOrReset_modal, Hmin by assumption.
  unfold after, forceType. cbn [fst snd].
  rewrite (hintIs_false _ _ Hreplace).
  replace (notActive isActiveRoute && hintIs typeHint (ACTION_TYPE_PUSH K))
    with false.
  - now rewrite <- app_assoc.
  - destruct Hpush as [-> | Hpush]; [reflexivity|].
    rewrite (hintIs_false _ _ Hpush). now destruct (notActive _).
Qed.

Lemma linkTo_dispatches_minimal_unforced_witness :
  linkTo appConstants profileLinks (Some (containerOf rootWithRightModal))
    "settings/profile" (Some "PUSH") (Some true)
  = ([ GetParent; GetState; GetStateFromPath "settings/profile";
       GetActionFromState profileState; GetRootState;
       Dispatch minimalProfileAction ],
     Returned tt).
Proof.
  apply (linkTo_dispatches_minimal_unforced appConstants profileLinks
           (containerOf rootWithRightModal) (containerOf rootWithRightModal)
           "settings/profile" (Some "PUSH") (Some true)
           profileAction profileAction minimalProfileAction []).
  - reflexivity.
  - reflexivity.
  - reflexivity.
  - vm_compute. reflexivity.
  - left. reflexivity.
  - discriminate.
Defined.

(** X13.  The climb of lines 71-75 ends on a navigation object that has no
    parent, after one [getParent] call per object passed and one more; from
    an object without parent it ends on that object. *)
Theorem getRoot_reaches_root (navigation : Navigation) :
  exists root,
    completion (getRoot navigation) = Returned root /\
    getParent root = None /\
    calls (fun ev => match ev with GetParent => true | _ => false end)
      (trace (getRoot navigation)) = length (trace (getRoot navigation)) /\
    (getParent navigation = None ->
     root = navigation /\ trace (getRoot navigation) = [GetParent]).
Proof.
  exists (rootOf navigation). rewrite getRoot_run.
  unfold completion, trace. cbn [fst snd].
  split; [reflexivity|]. split; [|split].
  - revert navigation. fix IH 1. intros [[current|] st rs].
    + exact (IH current).
    + reflexivity.
  - revert navigation. fix IH 1. intros [[current|] st rs].
    + change (parentCalls (mkNavigation (Some current) st rs))
        with (GetParent :: parentCalls current).
      unfold calls in *. cbn [filter length]. f_equal. exact (IH current).
    + reflexivity.
  - destruct navigation as [[current|] st rs]; [discriminate|].
    intros _. split; reflexivity.
Qed.

Lemma getRoot_reaches_root_witness :
  exists root,
    completion (getRoot (containerOf rootAtHome)) = Returned root /\
    getParent root = None /\
    calls (fun ev => match ev with GetParent => true | _ => false end)
      (trace (getRoot (containerOf rootAtHome)))
    = length (trace (getRoot (containerOf rootAtHome))) /\
    root = containerOf rootAtHome /\
    trace (getRoot (containerOf rootAtHome)) = [GetParent].
Proof.
  destruct (getRoot_reaches_root (containerOf rootAtHome))
    as (root & Hc & Hp & Hn & Hsame).
  exists root. split; [exact Hc|]. split; [exact Hp|]. split; [exact Hn|].
  apply Hsame. reflexivity.
Defined.

(** X14.  For a resolved action that names no modal navigator, a hint other
    than FORCED_UP and UP, so also PUSH and REPLACE, and the
    [isActiveRoute] flag change nothing: the run is the run without hint
    and flag. *)
Theorem linkTo_hint_only_for_modal (K : Constants) (E : Collaborators)
    (navigation : Navigation) (path : string) (typeHint : option string)
    (isActiveRoute : option bool) (resolved : NavigationAction) :
  getActionFromState E (getStateFromPath E path) = Some resolved ->
  targetsModalNavigator K resolved = false ->
  typeHint <> Some (TYPE_FORCED_UP K) ->
  typeHint <> Some (TYPE_UP K) ->
  linkTo K E (Some navigation) path typeHint isActiveRoute =
  linkTo K E (Some navigation) path None None.
Proof.
  intros Hres Hmodal Hforced Hup.
  assert (Hov : overrideType K E navigation (getState (rootOf navigation))
                  (getStateFromPath E path) typeHint resolved
                = overrideType K E navigation (getState (rootOf navigation))
                    (getStateFromPath E path) None resolved).
  { unfold overrideType.
    now rewrite (hintIs_false _ _ Hforced), (hintIs_false _ _ Hup). }
  rewrite !linkTo_run, Hres, Hov.
  destruct (overrideType_cases K E navigation (getState (rootOf navigation))
              (getStateFromPath E path) None resolved)
    as [(_ & _ & Hthrow) | (t & ty & n' & Hret & _)].
  - now rewrite Hthrow.
  - rewrite Hret. unfold bind, dispatchOrReset.
    now rewrite targetsModalNavigator_setType, Hmodal.
Qed.

Lemma linkTo_hint_only_for_modal_witness :
  linkTo appConstants reportLinks (Some (screenIn rootAtHome)) "r/99"
    (Some "REPLACE") (Some false)
  = linkTo appConstants reportLinks (Some (screenIn rootAtHome)) "r/99"
      None None.
Proof.
  apply (linkTo_hint_only_for_modal appConstants reportLinks
           (screenIn rootAtHome) "r/99" (Some "REPLACE") (Some false)
           reportAction); try reflexivity; discriminate.
Defined.

(** X15.  Every action a run of [linkTo] dispatches has the type of the
    resolved action, PUSH or REPLACE. *)
Theorem linkTo_dispatched_type (K : Constants) (E : Collaborators)
    (navigation : Navigation) (path : string) (typeHint : option string)
    (isActiveRoute : option bool) (dispatched : NavigationAction) :
  In (Dispatch dispatched)
    (trace (linkTo K E (Some navigation) path typeHint isActiveRoute)) ->
  exists resolved,
    getActionFromState E (getStateFromPath E path) = Some resolved /\
    (type dispatched = type resolved \/
     type dispatched = ACTION_TYPE_PUSH K \/
     type dispatched = ACTION_TYPE_REPLACE K).
Proof.
  assert (Hin : forall t post,
             In (Dispatch dispatched) (reads E navigation path ++ t ++ post) ->
             (t = [] \/ t = [DismissModal ""]) ->
             In (Dispatch dispatched) post).
  { intros t post H Ht. apply in_app_or in H. destruct H as [H|H].
    - now apply reads_no_dispatch in H.
    - apply in_app_or in H. destruct H as [H|H]; [|exact H].
      destruct Ht as [-> | ->]; cbn in H; intuition discriminate. }
  destruct (linkTo_shapes K E navigation path typeHint isActiveRoute)
    as [(Hres & Hrun) | (resolved & Hres & [(_ & _ & Hrun) |
         (t & ty & n' & _ & Hty & Ht &
          [(_ & Hrun) | [(_ & m & Hmin & Hrun) | (_ & _ & Hrun)]])])];
    rewrite Hrun; unfold trace; cbn [fst]; intros H.
  - apply in_app_or in H. destruct H as [H|H].
    + now apply reads_no_dispatch in H.
    + cbn in H. intuition discriminate.
  - now apply reads_no_dispatch in H.
  - apply (Hin t) in H; [|intuition].
    destruct H as [H|[]]. injection H as <-.
    exists resolved. split; [exact Hres|].
    cbn [type setType]. destruct Hty as [-> | [-> | ->]]; auto.
  - apply (Hin t) in H; [|intuition].
    destruct H as [H|[H|[]]]; [discriminate|]. injection H as <-.
    exists resolved. split; [exact Hres|].
    assert (Hm : type m = ty).
    { destruct (getMinimalAction_last_turn (setType resolved ty)
                  (getRootState n')) as (b & n & R & Hend).
      destruct (iteration b n); [|congruence|contradiction].
      rewrite Hmin in Hend. injection Hend as ->.
      apply (reaches_type _ _ _ _ R). }
    destruct (forceType_type K typeHint isActiveRoute m) as [-> | [-> | ->]];
      auto.
    rewrite Hm. destruct Hty as [-> | [-> | ->]]; auto.
  - apply (Hin t) in H; [|intuition].
    destruct H as [H|[]]. discriminate.
Qed.

Lemma linkTo_dispatched_type_witness :
  exists resolved,
    getActionFromState profileLinks
      (getStateFromPath profileLinks "settings/profile") = Some resolved /\
    (type minimalProfileAction = type resolved \/
     type minimalProfileAction = "PUSH" \/
     type minimalProfileAction = "REPLACE").
Proof.
  apply (linkTo_dispatched_type appConstants profileLinks
           (containerOf rootWithRightModal) "settings/profile" None None
           minimalProfileAction).
  vm_compute. auto 10.
Defined.

(** ** Localize: list formats *)

Lemma tableGet_tableSet {V : Type} (k k' : string) (v : V)
    (table : list (string * V)) :
  tableGet k (tableSet k' v table) =
  if String.eqb k k' then Some v else tableGet k table.
Proof.
  induction table as [|[k0 v0] table IH]; cbn [tableSet tableGet].
  - reflexivity.
  - destruct (String.eqb_spec k' k0) as [->|Hne]; cbn [tableGet].
    + now destruct (String.eqb k k0).
    + rewrite IH. destruct (String.eqb_spec k k0) as [->|_]; [|reflexivity].
      destruct (String.eqb_spec k0 k'); congruence.
Qed.

(** The table [init] builds from a table [memo] and the locales left. *)
Lemma init_from (L : ListLocales) (locales : list string) :
  forall memo,
  (forall l, In l locales ->
             exists f, newListFormat L (listFormatLocale L l) = Returned f) ->
  exists table,
    fold_left
      (fun memo locale =>
         andThen memo (fun memo =>
           if String.eqb locale (LOCALES_ES_ES_ONFIDO L) then
             andThen (newListFormat L (LOCALES_ES_ES L)) (fun listFormat =>
               Returned (tableSet locale listFormat memo))
           else
             andThen (newListFormat L locale) (fun listFormat =>
               Returned (tableSet locale listFormat memo))))
      locales (Returned memo) = Returned table /\
    forall l,
      tableGet l table =
      if existsb (String.eqb l) locales
      then match newListFormat L (listFormatLocale L l) with
           | Returned f => Some f
           | Thrown _ => None
           end
      else tableGet l memo.
Proof.
  induction locales as [|locale locales IH]; intros memo Hnew.
  - exists memo. split; reflexivity.
  - destruct (Hnew locale (or_introl eq_refl)) as (f & Hf).
    cbn [fold_left andThen].
    assert (Hstep :
      (if String.eqb locale (LOCALES_ES_ES_ONFIDO L)
       then andThen (newListFormat L (LOCALES_ES_ES L)) (fun listFormat =>
              Returned (tableSet locale listFormat memo))
       else andThen (newListFormat L locale) (fun listFormat =>
              Returned (tableSet locale listFormat memo)))
      = Returned (tableSet locale f memo)).
    { unfold listFormatLocale in Hf.
      destruct (String.eqb locale (LOCALES_ES_ES_ONFIDO L)); now rewrite Hf. }
    rewrite Hstep.
    destruct (IH (tableSet locale f memo)) as (table & Hfold & Hget).
    { intros l Hl. apply Hnew. now right. }
    exists table. split; [exact Hfold|]. intros l. rewrite Hget.
    cbn [existsb]. rewrite tableGet_tableSet.
    destruct (existsb (String.eqb l) locales).
    + now rewrite orb_true_r.
    + rewrite orb_false_r.
      destruct (String.eqb_spec l locale) as [->|_]; [|reflexivity].
      now rewrite Hf.
Qed.

Lemma fold_pushPart {E : Type} (elements : list E) (parts : list ListPart) :
  forall acc i,
  fst (fold_left (pushPart elements) parts (acc, i)) =
  acc ++ entriesFrom elements parts i.
Proof.
  induction parts as [|part parts IH]; intros acc i; cbn [fold_left entriesFrom].
  - now rewrite app_nil_r.
  - unfold pushPart at 2.
    destruct (String.eqb (partType part) "element");
      rewrite IH, <- app_assoc; reflexivity.
Qed.

Lemma entriesFrom_length {E : Type} (elements : list E)
    (parts : list ListPart) :
  forall i, length (entriesFrom elements parts i) = length parts.
Proof.
  induction parts as [|part parts IH]; intros i; cbn [entriesFrom length].
  - reflexivity.
  - destruct (String.eqb (partType part) "element"); cbn [length];
      now rewrite IH.
Qed.

Lemma entriesFrom_given {E : Type} (elements : list E)
    (parts : list ListPart) :
  forall i,
  i + length (filter isElementPart parts) <= length elements ->
  givenElements (entriesFrom elements parts i) =
  firstn (length (filter isElementPart parts)) (skipn i elements) /\
  ~ In NoElement (entriesFrom elements parts i).
Proof.
  induction parts as [|part parts IH]; intros i Hlen;
    cbn [entriesFrom filter] in Hlen |- *.
  - split; [reflexivity | intros []].
  - change (isElementPart part)
      with (String.eqb (partType part) "element") in *.
    destruct (String.eqb (partType part) "element").
    + cbn [length] in Hlen |- *.
      destruct (nth_error elements i) as [element|] eqn:Hnth.
      2:{ apply nth_error_None in Hnth. lia. }
      destruct (IH (S i)) as (Hgiven & Hno); [lia|].
      split.
      * cbn [givenElements]. rewrite Hgiven.
        clear - Hnth. revert i Hnth.
        induction elements as [|e0 elements IHe]; intros [|i] Hnth;
          try discriminate.
        -- now injection Hnth as ->.
        -- cbn [skipn]. now apply IHe.
      * intros [H|H]; [discriminate | now apply Hno].
    + destruct (IH i Hlen) as (Hgiven & Hno). split.
      * exact Hgiven.
      * intros [H|H]; [discriminate | now apply Hno].
Qed.

Lemma entriesFrom_contents {E : Type} (content : E -> string)
    (elements : list E) (parts : list ListPart) :
  forall i,
  map partValue (filter isElementPart parts) = map content (skipn i elements) ->
  map (entryContent content) (entriesFrom elements parts i) =
  map (fun part => Some (partValue part)) parts.
Proof.
  induction parts as [|part parts IH]; intros i Hparts;
    cbn [entriesFrom filter map] in *.
  - reflexivity.
  - change (isElementPart part)
      with (String.eqb (partType part) "element") in *.
    destruct (String.eqb (partType part) "element").
    + cbn [map] in Hparts.
      destruct (skipn i elements) as [|e rest] eqn:Hskip; [discriminate|].
      cbn [map] in Hparts. injection Hparts as Hvalue Hrest.
      assert (Hnth : nth_error elements i = Some e /\
                     skipn (S i) elements = rest).
      { clear - Hskip. revert i Hskip.
        induction elements as [|e0 elements IHe]; intros [|i] Hskip;
          try discriminate.
        - injection Hskip as -> ->. split; reflexivity.
        - cbn [skipn nth_error] in *. now apply IHe. }
      destruct Hnth as (Hnth & Hnext). rewrite Hnth.
      cbn [map entryContent]. rewrite <- Hvalue. f_equal.
      apply IH. now rewrite Hnext.
    + cbn [map entryContent]. f_equal. now apply IH.
Qed.

Lemma entriesFrom_text {E : Type} (elements : list E) (parts : list ListPart) :
  forall i j part,
  nth_error parts j = Some part ->
  String.eqb (partType part) "element" = false ->
  nth_error (entriesFrom elements parts i) j =
  Some (TextElement (partValue part)).
Proof.
  induction parts as [|part0 parts IH]; intros i [|j] part Hj Hlit;
    try discriminate; cbn [entriesFrom nth_error] in *.
  - injection Hj as ->. now rewrite Hlit.
  - destruct (String.eqb (partType part0) "element"); cbn [nth_error];
      now apply IH.
Qed.

Lemma formatMessageElementList_entries {E : Type} (content : E -> string)
    (L : ListLocales) (formats formats' : option (list (string * ListFormat)))
    (preferredLocale : string) (listFormat : ListFormat) (elements : list E) :
  getPreferredListFormat L formats preferredLocale
  = Returned (formats', Some listFormat) ->
  formatMessageElementList content L formats preferredLocale elements =
  Returned (formats',
            entriesFrom elements
              (formatToParts listFormat (map content elements)) 0).
Proof.
  intros H. unfold formatMessageElementList. rewrite H. cbn [andThen].
  now rewrite fold_pushPart.
Qed.

(** X16.  When [Intl.ListFormat] can be built for every listed locale, with
    ES_ES standing in for ES_ES_ONFIDO, [init] builds a table that binds
    every listed locale to the format of that locale, ES_ES_ONFIDO to the
    format of ES_ES, and binds no other locale.  The constructor is never
    asked for ES_ES_ONFIDO itself. *)
Theorem init_table (L : ListLocales) :
  (forall l, In l (LOCALES L) ->
             exists f, newListFormat L (listFormatLocale L l) = Returned f) ->
  exists table,
    init L = Returned table /\
    forall l,
      tableGet l table =
      if existsb (String.eqb l) (LOCALES L)
      then match newListFormat L (listFormatLocale L l) with
           | Returned f => Some f
           | Thrown _ => None
           end
      else None.
Proof.
  intros Hnew. destruct (init_from L (LOCALES L) [] Hnew) as (table & H & Hget).
  exists table. split; [exact H | exact Hget].
Qed.

Lemma init_table_witness :
  exists table,
    init exampleLocales = Returned table /\
    forall l,
      tableGet l table =
      if existsb (String.eqb l) (LOCALES exampleLocales)
      then match newListFormat exampleLocales
                   (listFormatLocale exampleLocales l) with
           | Returned f => Some f
           | Thrown _ => None
           end
      else None.
Proof.
  apply (init_table exampleLocales).
  intros l [<-|[<-|[<-|[<-|[]]]]]; exists andFormat; reflexivity.
Defined.

(** X17.  With the table not yet built and [Intl.ListFormat] available for
    every listed locale: for a preferred locale that is not listed, [formatList] and
    [formatMessageElementList] throw a TypeError; for a listed one
    [formatList] returns what the format of that locale (of ES_ES for
    ES_ES_ONFIDO) makes of the components, and leaves the table built. *)
Theorem formatList_preferred_locale (L : ListLocales)
    (preferredLocale : string) (components : list string) :
  (forall l, In l (LOCALES L) ->
             exists f, newListFormat L (listFormatLocale L l) = Returned f) ->
  if existsb (String.eqb preferredLocale) (LOCALES L)
  then exists table f,
         init L = Returned table /\
         newListFormat L (listFormatLocale L preferredLocale) = Returned f /\
         formatList L None preferredLocale components
         = Returned (Some table, format f components)
  else formatList L None preferredLocale components = Thrown TypeError /\
       formatMessageElementList (fun s : string => s) L None preferredLocale
         components = Thrown TypeError.
Proof.
  intros Hnew. destruct (init_from L (LOCALES L) [] Hnew) as (table & H & Hget).
  fold (init L) in H. specialize (Hget preferredLocale).
  unfold formatList, formatMessageElementList, getPreferredListFormat.
  rewrite H. cbn [andThen]. rewrite Hget.
  destruct (existsb (String.eqb preferredLocale) (LOCALES L)) eqn:Hin.
  - apply existsb_exists in Hin. destruct Hin as (l & Hl & Heq).
    apply String.eqb_eq in Heq. subst l.
    destruct (Hnew preferredLocale Hl) as (f & Hf).
    exists table, f. rewrite Hf. auto.
  - split; reflexivity.
Qed.

Lemma formatList_preferred_locale_witness :
  (exists table f,
     init exampleLocales = Returned table /\
     newListFormat exampleLocales (listFormatLocale exampleLocales "es_ES")
     = Returned f /\
     formatList exampleLocales None "es_ES" [ "a"; "b"; "c" ]
     = Returned (Some table, format f [ "a"; "b"; "c" ])) /\
  formatList exampleLocales None "fr" [ "a"; "b"; "c" ] = Thrown TypeError.
Proof.
  assert (Hnew : forall l, In l (LOCALES exampleLocales) ->
                 exists f, newListFormat exampleLocales
                             (listFormatLocale exampleLocales l) = Returned f).
  { intros l [<-|[<-|[<-|[<-|[]]]]]; exists andFormat; reflexivity. }
  split.
  - exact (formatList_preferred_locale exampleLocales "es_ES"
             [ "a"; "b"; "c" ] Hnew).
  - exact (proj1 (formatList_preferred_locale exampleLocales "fr"
                    [ "a"; "b"; "c" ] Hnew)).
Defined.

(** X18.  When a list format is found, [formatMessageElementList] returns
    one entry per part of [formatToParts], and every part that is not of
    type 'element' becomes, at its position, a text element with the part's
    value as content. *)
Theorem formatMessageElementList_parts {E : Type} (content : E -> string)
    (L : ListLocales) (formats formats' : option (list (string * ListFormat)))
    (preferredLocale : string) (listFormat : ListFormat) (elements : list E) :
  getPreferredListFormat L formats preferredLocale
  = Returned (formats', Some listFormat) ->
  exists entries,
    formatMessageElementList content L formats preferredLocale elements
    = Returned (formats', entries) /\
    length entries
    = length (formatToParts listFormat (map content elements)) /\
    forall j part,
      nth_error (formatToParts listFormat (map content elements)) j
      = Some part ->
      partType part <> "element" ->
      nth_error entries j = Some (TextElement (partValue part)).
Proof.
  intros H. eexists. split;
    [exact (formatMessageElementList_entries content L formats formats'
              preferredLocale listFormat elements H)|].
  split; [apply entriesFrom_length|].
  intros j part Hj Hlit. apply entriesFrom_text; [exact Hj|].
  now destruct (String.eqb_spec (partType part) "element").
Qed.

Lemma formatMessageElementList_parts_witness :
  exists entries,
    formatMessageElementList (fun s : string => s) exampleLocales None "en"
      [ "a"; "b"; "c" ]
    = Returned (Some [ ("en", andFormat); ("es", andFormat);
                       ("es-ES", andFormat); ("es_ES", andFormat) ],
                entries) /\
    length entries = 5 /\
    forall j part,
      nth_error (andParts [ "a"; "b"; "c" ]) j = Some part ->
      partType part <> "element" ->
      nth_error entries j = Some (TextElement (partValue part)).
Proof.
  apply (formatMessageElementList_parts (fun s : string => s) exampleLocales
           None _ "en" andFormat [ "a"; "b"; "c" ]).
  reflexivity.
Defined.

(** X19.  When the parts hold as many parts of type 'element' as there are
    elements (what ECMA-402 guarantees, as the comment on lines 235-238
    says), the elements given appear among the entries returned each once
    and in their order, and no entry is [undefined]. *)
Theorem formatMessageElementList_keeps_elements {E : Type}
    (content : E -> string) (L : ListLocales)
    (formats formats' : option (list (string * ListFormat)))
    (preferredLocale : string) (listFormat : ListFormat) (elements : list E) :
  getPreferredListFormat L formats preferredLocale
  = Returned (formats', Some listFormat) ->
  length (filter isElementPart
            (formatToParts listFormat (map content elements)))
  = length elements ->
  exists entries,
    formatMessageElementList content L formats preferredLocale elements
    = Returned (formats', entries) /\
    givenElements entries = elements /\
    ~ In NoElement entries.
Proof.
  intros H Hcount. eexists.
  split;
    [exact (formatMessageElementList_entries content L formats formats'
              preferredLocale listFormat elements H)|].
  destruct (entriesFrom_given elements
              (formatToParts listFormat (map content elements)) 0)
    as (Hgiven & Hno); [rewrite Hcount; lia|].
  split; [|exact Hno]. rewrite Hgiven, Hcount. apply firstn_all.
Qed.

Lemma formatMessageElementList_keeps_elements_witness :
  exists entries,
    formatMessageElementList (fun s : string => s) exampleLocales None
      "es_ES" [ "a"; "b"; "c" ]
    = Returned (Some [ ("en", andFormat); ("es", andFormat);
                       ("es-ES", andFormat); ("es_ES", andFormat) ],
                entries) /\
    givenElements entries = [ "a"; "b"; "c" ] /\
    ~ In NoElement entries.
Proof.
  apply (formatMessageElementList_keeps_elements (fun s : string => s)
           exampleLocales None _ "es_ES" andFormat [ "a"; "b"; "c" ]);
    reflexivity.
Defined.

(** X20.  When the parts of type 'element' carry the contents of the
    elements, in order, the contents of the entries returned are the values
    of the parts, in order: reading the entries gives the formatted list. *)
Theorem formatMessageElementList_contents {E : Type} (content : E -> string)
    (L : ListLocales) (formats formats' : option (list (string * ListFormat)))
    (preferredLocale : string) (listFormat : ListFormat) (elements : list E) :
  getPreferredListFormat L formats preferredLocale
  = Returned (formats', Some listFormat) ->
  map partValue (filter isElementPart
                   (formatToParts listFormat (map content elements)))
  = map content elements ->
  exists entries,
    formatMessageElementList content L formats preferredLocale elements
    = Returned (formats', entries) /\
    map (entryContent content) entries
    = map (fun part => Some (partValue part))
        (formatToParts listFormat (map content elements)).
Proof.
  intros H Hparts. eexists.
  split;
    [exact (formatMessageElementList_entries content L formats formats'
              preferredLocale listFormat elements H)|].
  now apply entriesFrom_contents.
Qed.

Lemma formatMessageElementList_contents_witness :
  exists entries,
    formatMessageElementList (fun s : string => s) exampleLocales None "en"
      [ "a"; "b"; "c" ]
    = Returned (Some [ ("en", andFormat); ("es", andFormat);
                       ("es-ES", andFormat); ("es_ES", andFormat) ],
                entries) /\
    map (entryContent (fun s : string => s)) entries
    = [ Some "a"; Some ", "; Some "b"; Some " and "; Some "c" ].
Proof.
  apply (formatMessageElementList_contents (fun s : string => s)
           exampleLocales None _ "en" andFormat [ "a"; "b"; "c" ]);
    reflexivity.
Defined.

(** ** Localize: translated phrases *)

Lemma cacheGet_cacheSet (cache : TranslationCache)
    (l k l' k' : string) (v : JSValue) :
  cacheGet (cacheSet cache l k v) l' k' =
  if String.eqb l' l && String.eqb k' k
     && match tableGet l cache with Some _ => true | None => false end
  then v else cacheGet cache l' k'.
Proof.
  unfold cacheSet, cacheGet.
  destruct (tableGet l cache) as [forLocale|] eqn:Hl.
  2:{ now rewrite andb_false_r. }
  rewrite tableGet_tableSet, andb_true_r.
  destruct (String.eqb_spec l' l) as [->|_]; cbn [andb]; [|reflexivity].
  rewrite tableGet_tableSet, Hl. now destruct (String.eqb k' k).
Qed.

Lemma writes_refl (X : Phrases) (phraseKey : string)
    (cache : TranslationCache) :
  writes X phraseKey cache cache.
Proof. intros l k. now left. Qed.

Lemma writes_trans (X : Phrases) (phraseKey : string)
    (cache1 cache2 cache3 : TranslationCache) :
  writes X phraseKey cache1 cache2 -> writes X phraseKey cache2 cache3 ->
  writes X phraseKey cache1 cache3.
Proof.
  intros H12 H23 l k. destruct (H23 l k) as [Heq|Hnew]; [|now right].
  rewrite Heq. apply H12.
Qed.

Lemma writes_cacheSet (X : Phrases) (phraseKey language : string)
    (cache : TranslationCache) (v : JSValue) :
  translations X language phraseKey = PhraseValue v -> truthy v = true ->
  writes X phraseKey cache (cacheSet cache language phraseKey v).
Proof.
  intros Hv Ht l k. rewrite cacheGet_cacheSet.
  destruct (String.eqb_spec l language) as [->|_]; cbn [andb]; [|now left].
  destruct (String.eqb_spec k phraseKey) as [->|_]; cbn [andb]; [|now left].
  destruct (tableGet language cache); [right; auto | now left].
Qed.

Lemma coherent_writes (X : Phrases) (phraseKey : string)
    (cache cache' : TranslationCache) :
  coherent X cache -> writes X phraseKey cache cache' -> coherent X cache'.
Proof.
  intros Hc Hw l k Ht. destruct (Hw l k) as [Heq | (-> & Hv & _)];
    [|exact Hv].
  rewrite Heq in *. now apply Hc.
Qed.

(** A cache with no entry is coherent, as the cache of line 85 is. *)
Lemma coherent_fresh (X : Phrases) (cache : TranslationCache) :
  (forall language phraseKey, cacheGet cache language phraseKey = JUndefined) ->
  coherent X cache.
Proof. intros Hfresh l k. now rewrite Hfresh. Qed.

Lemma emptyCache_fresh (language phraseKey : string) :
  cacheGet emptyCache language phraseKey = JUndefined.
Proof.
  unfold cacheGet, emptyCache. cbn [tableGet].
  repeat destruct (String.eqb language _); reflexivity.
Qed.

Lemma phraseIn_writes (X : Phrases) (language phraseKey : string)
    (phraseParameters : list JSValue) (cache cache' : TranslationCache)
    (alerts : list string) (found : option JSValue) :
  phraseIn X language phraseKey phraseParameters cache
  = (alerts, Returned (cache', found)) ->
  writes X phraseKey cache cache'.
Proof.
  unfold phraseIn.
  destruct (truthy (cacheGet cache language phraseKey));
    [intros [= _ <- _]; apply writes_refl|].
  destruct (newPluralRules X language) as [select|e]; [|discriminate].
  destruct (translations X language phraseKey) as [v|f] eqn:Hv.
  2:{ destruct (f phraseParameters); [|discriminate].
      intros [= _ <- _]. apply writes_refl. }
  destruct (truthy v) eqn:Ht; [|intros [= _ <- _]; apply writes_refl].
  assert (Hset : writes X phraseKey cache
                   (cacheSet cache language phraseKey v))
    by now apply writes_cacheSet.
  destruct v as [| | | | |forms]; try (intros [= _ <- _]; exact Hset).
  destruct (nth_error phraseParameters 0) as [[| | |count| |]|];
    try (intros [= _ <- _]; exact Hset).
  destruct (truthy (getProp _ _)); intros [= _ <- _]; apply writes_refl.
Qed.

Lemma getTranslatedPhraseNoFallback_writes (X : Phrases)
    (language phraseKey : string) (phraseParameters : list JSValue)
    (cache cache' : TranslationCache) (alerts : list string) (v : JSValue) :
  getTranslatedPhraseNoFallback X language phraseKey phraseParameters cache
  = (alerts, Returned (cache', v)) ->
  writes X phraseKey cache cache'.
Proof.
  unfold getTranslatedPhraseNoFallback.
  destruct (phraseIn X language phraseKey phraseParameters cache)
    as [a [[c [w|]]|e]] eqn:Hrun; [| |discriminate];
    intros [= _ <- _]; eapply phraseIn_writes; eauto.
Qed.

Lemma getTranslatedPhrase_writes (X : Phrases) (language phraseKey : string)
    (fallbackLanguage : option string) (phraseParameters : list JSValue)
    (cache cache' : TranslationCache) (alerts : list string) (v : JSValue) :
  getTranslatedPhrase X language phraseKey fallbackLanguage phraseParameters
    cache
  = (alerts, Returned (cache', v)) ->
  writes X phraseKey cache cache'.
Proof.
  unfold getTranslatedPhrase.
  destruct (phraseIn X language phraseKey phraseParameters cache)
    as [a [[c1 [w|]]|e]] eqn:H1; [| |discriminate].
  { intros [= _ <- _]. eapply phraseIn_writes; eauto. }
  apply phraseIn_writes in H1.
  destruct fallbackLanguage as [fallback|]; [|now intros [= _ <- _]].
  destruct (String.eqb fallback ""); [now intros [= _ <- _]|].
  destruct (getTranslatedPhraseNoFallback X fallback phraseKey
              phraseParameters c1) as [a2 [[c2 v2]|e2]] eqn:H2;
    [|discriminate].
  apply getTranslatedPhraseNoFallback_writes in H2.
  destruct (truthy v2).
  { intros [= _ <- _]. eapply writes_trans; eauto. }
  destruct (getTranslatedPhraseNoFallback X (LOCALE_DEFAULT X) phraseKey
              phraseParameters c2) as [a4 [[c4 v4]|e4]] eqn:H4;
    [|discriminate].
  apply getTranslatedPhraseNoFallback_writes in H4.
  intros [= _ <- _]. eauto using writes_trans.
Qed.

(** The phrase of a plain entry that is not in the cache. *)
Lemma phraseIn_plain (X : Phrases) (language phraseKey : string)
    (phraseParameters : list JSValue) (cache : TranslationCache)
    (v : JSValue) :
  plainIn X language phraseKey v ->
  (exists select, newPluralRules X language = Returned select) ->
  truthy (cacheGet cache language phraseKey) = false ->
  phraseIn X language phraseKey phraseParameters cache =
  ([], Returned (if truthy v
                 then (cacheSet cache language phraseKey v, Some v)
                 else (cache, None))).
Proof.
  intros (Hv & Hplain) (select & Hrules) Hcache. unfold phraseIn.
  rewrite Hcache, Hrules, Hv. destruct (truthy v); [|reflexivity].
  destruct v; try reflexivity. now destruct (Hplain props).
Qed.

(** A run agrees with the run that has no cache: the same alerts and the same
    outcome, and the cache it leaves is coherent. *)
Ltac same_run :=
  cbv beta iota zeta;
  first [ left; do 3 eexists; split; [reflexivity|];
          split; [eassumption | reflexivity]
        | right; do 2 eexists; split; reflexivity ].

Lemma phraseIn_cached (X : Phrases) (language phraseKey : string)
    (phraseParameters : list JSValue) (cache : TranslationCache) :
  coherent X cache ->
  (exists select, newPluralRules X language = Returned select) ->
  (forall o, translations X language phraseKey <> PhraseValue (JObject o)) ->
  (exists alerts found cache',
     phraseIn X language phraseKey phraseParameters cache
     = (alerts, Returned (cache', found)) /\
     coherent X cache' /\
     phraseIn X language phraseKey phraseParameters []
     = (alerts, Returned ([], found))) \/
  (exists alerts e,
     phraseIn X language phraseKey phraseParameters cache
     = (alerts, Thrown e) /\
     phraseIn X language phraseKey phraseParameters []
     = (alerts, Thrown e)).
Proof.
  intros Hc (select & Hrules) Hobj. unfold phraseIn.
  cbn [cacheGet tableGet truthy]. rewrite Hrules.
  destruct (truthy (cacheGet cache language phraseKey)) eqn:Hcached.
  - rewrite (Hc _ _ Hcached), Hcached.
    destruct (cacheGet cache language phraseKey) eqn:Hv; try same_run.
    exfalso. apply (Hobj props). rewrite <- Hv. apply Hc. now rewrite Hv.
  - destruct (translations X language phraseKey) as [v|f] eqn:Hv.
    + destruct (truthy v) eqn:Ht; [|same_run].
      assert (Hset : coherent X (cacheSet cache language phraseKey v)).
      { eapply coherent_writes; [exact Hc|]. now apply writes_cacheSet. }
      destruct v; try same_run. now destruct (Hobj props).
    + destruct (f phraseParameters); same_run.
Qed.

Lemma getTranslatedPhraseNoFallback_cached (X : Phrases)
    (language phraseKey : string) (phraseParameters : list JSValue)
    (cache : TranslationCache) :
  coherent X cache ->
  (exists select, newPluralRules X language = Returned select) ->
  (forall o, translations X language phraseKey <> PhraseValue (JObject o)) ->
  (exists alerts v cache',
     getTranslatedPhraseNoFallback X language phraseKey phraseParameters cache
     = (alerts, Returned (cache', v)) /\
     coherent X cache' /\
     getTranslatedPhraseNoFallback X language phraseKey phraseParameters []
     = (alerts, Returned ([], v))) \/
  (exists alerts e,
     getTranslatedPhraseNoFallback X language phraseKey phraseParameters cache
     = (alerts, Thrown e) /\
     getTranslatedPhraseNoFallback X language phraseKey phraseParameters []
     = (alerts, Thrown e)).
Proof.
  intros Hc Hrules Hobj. unfold getTranslatedPhraseNoFallback.
  destruct (phraseIn_cached X language phraseKey phraseParameters cache Hc
              Hrules Hobj)
    as [(a & found & c1 & H1 & Hc1 & H10) | (a & e & H1 & H10)];
    rewrite H1, H10; [|same_run].
  destruct found; same_run.
Qed.

(** The locales a run of [getTranslatedPhrase] may look the phrase up in:
    the language, the fallback language and the default locale. *)
Lemma getTranslatedPhrase_cached (X : Phrases) (language phraseKey : string)
    (fallback : string) (phraseParameters : list JSValue)
    (cache : TranslationCache) :
  coherent X cache ->
  (forall l, In l [language; fallback; LOCALE_DEFAULT X] ->
     exists select, newPluralRules X l = Returned select) ->
  (forall l o, In l [language; fallback; LOCALE_DEFAULT X] ->
     translations X l phraseKey <> PhraseValue (JObject o)) ->
  (exists alerts v cache',
     getTranslatedPhrase X language phraseKey (Some fallback)
       phraseParameters cache
     = (alerts, Returned (cache', v)) /\
     coherent X cache' /\
     getTranslatedPhrase X language phraseKey (Some fallback)
       phraseParameters []
     = (alerts, Returned ([], v))) \/
  (exists alerts e,
     getTranslatedPhrase X language phraseKey (Some fallback)
       phraseParameters cache
     = (alerts, Thrown e) /\
     getTranslatedPhrase X language phraseKey (Some fallback)
       phraseParameters []
     = (alerts, Thrown e)).
Proof.
  intros Hc Hrules Hobj. unfold getTranslatedPhrase.
  assert (Hin1 : In language [language; fallback; LOCALE_DEFAULT X])
    by (cbn; auto).
  assert (Hin2 : In fallback [language; fallback; LOCALE_DEFAULT X])
    by (cbn; auto).
  assert (Hin3 : In (LOCALE_DEFAULT X) [language; fallback; LOCALE_DEFAULT X])
    by (cbn; auto).
  destruct (phraseIn_cached X language phraseKey phraseParameters cache Hc
              (Hrules _ Hin1) (fun o => Hobj _ o Hin1))
    as [(a & found & c1 & H1 & Hc1 & H10) | (a & e & H1 & H10)];
    rewrite H1, H10; [|same_run].
  destruct found as [v|]; [same_run|].
  destruct (String.eqb fallback ""); [same_run|].
  destruct (getTranslatedPhraseNoFallback_cached X fallback phraseKey
              phraseParameters c1 Hc1 (Hrules _ Hin2)
              (fun o => Hobj _ o Hin2))
    as [(a2 & v2 & c2 & H2 & Hc2 & H20) | (a2 & e2 & H2 & H20)];
    rewrite H2, H20; [|same_run].
  destruct (truthy v2); [same_run|].
  destruct (getTranslatedPhraseNoFallback_cached X (LOCALE_DEFAULT X)
              phraseKey phraseParameters c2 Hc2 (Hrules _ Hin3)
              (fun o => Hobj _ o Hin3))
    as [(a4 & v4 & c4 & H4 & Hc4 & H40) | (a4 & e4 & H4 & H40)];
    rewrite H4, H40; same_run.
Qed.

(** X21. [translate] looks a plain phrase up in the full locale, then in the
    two-letter abbreviation of the desired language, then in the default
    locale, and returns the first truthy entry; this for a phrase key that
    is not in the cache for these three locales, and when
    [Intl.PluralRules] can be built for them.  Passing over the abbreviation
    is alerted unless it is the default locale.  A phrase found nowhere is
    alerted and answered by the key, or by the missing-translation text for
    an Expensify user, on production and staging, and is an [Error]
    elsewhere. *)
Theorem translate_fallback_order (X : Phrases) (userEmail : string)
    (desiredLanguage phraseKey : string) (phraseParameters : list JSValue)
    (cache : TranslationCache) (v1 v2 v3 : JSValue) :
  let language :=
    if String.eqb desiredLanguage (LOCALE_ES_ES_ONFIDO X) then LOCALE_ES_ES X
    else desiredLanguage in
  let abbreviation := String.substring 0 2 desiredLanguage in
  abbreviation <> ""%string ->
  (forall l, In l [language; abbreviation; LOCALE_DEFAULT X] ->
     exists select, newPluralRules X l = Returned select) ->
  plainIn X language phraseKey v1 ->
  plainIn X abbreviation phraseKey v2 ->
  plainIn X (LOCALE_DEFAULT X) phraseKey v3 ->
  (forall l, In l [language; abbreviation; LOCALE_DEFAULT X] ->
     truthy (cacheGet cache l phraseKey) = false) ->
  answer (translate X userEmail desiredLanguage phraseKey phraseParameters
            cache) =
  if truthy v1 then ([], Returned v1)
  else if truthy v2 then ([], Returned v2)
  else
    let passed :=
      if String.eqb abbreviation (LOCALE_DEFAULT X) then []
      else [ phraseKey ++ " was not found in the " ++ abbreviation ++
             " locale" ]%string in
    if truthy v3 then (passed, Returned v3)
    else if IS_IN_PRODUCTION X || IS_IN_STAGING X then
      (passed ++ [ phraseKey ++ " was not found in the en locale" ]%string,
       Returned (JString (if includes userEmail (EXPENSIFY_EMAIL_DOMAIN X)
                          then MISSING_TRANSLATION X else phraseKey)))
    else
      (passed,
       Thrown (Error (phraseKey ++ " was not found in the default language"))).
Proof.
  intros language abbreviation Habbr Hrules H1 H2 H3 Hcache.
  assert (Hin1 : In language [language; abbreviation; LOCALE_DEFAULT X])
    by (cbn; auto).
  assert (Hin2 : In abbreviation [language; abbreviation; LOCALE_DEFAULT X])
    by (cbn; auto).
  assert (Hin3 : In (LOCALE_DEFAULT X)
                   [language; abbreviation; LOCALE_DEFAULT X])
    by (cbn; auto).
  pose proof (Hrules _ Hin1) as Hr1. pose proof (Hrules _ Hin2) as Hr2.
  pose proof (Hrules _ Hin3) as Hr3.
  pose proof (Hcache _ Hin1) as Hc1. pose proof (Hcache _ Hin2) as Hc2.
  pose proof (Hcache _ Hin3) as Hc3.
  clear Hrules Hcache Hin1 Hin2 Hin3.
  subst language abbreviation.
  unfold translate, getTranslatedPhrase. cbv zeta.
  rewrite (phraseIn_plain X _ phraseKey phraseParameters cache v1 H1 Hr1 Hc1).
  destruct (truthy v1) eqn:Ht1.
  { destruct v1; try discriminate Ht1; reflexivity. }
  destruct (String.eqb_spec (String.substring 0 2 desiredLanguage) "")
    as [Hempty|_]; [now destruct Habbr|].
  unfold getTranslatedPhraseNoFallback.
  rewrite (phraseIn_plain X _ phraseKey phraseParameters cache v2 H2 Hr2 Hc2).
  destruct (truthy v2) eqn:Ht2; cbv beta iota zeta.
  { rewrite Ht2. destruct v2; try discriminate Ht2; reflexivity. }
  cbn [truthy].
  rewrite (phraseIn_plain X _ phraseKey phraseParameters cache v3 H3 Hr3 Hc3).
  destruct (truthy v3) eqn:Ht3; cbv beta iota zeta.
  { destruct v3; try discriminate Ht3;
      unfold answer; cbn [fst snd app]; now rewrite app_nil_r. }
  destruct (IS_IN_PRODUCTION X || IS_IN_STAGING X);
    unfold answer; cbn [fst snd app]; now rewrite app_nil_r.
Qed.

Lemma translate_fallback_order_witness :
  answer (translate examplePhrases "someone@example.com" "es-ES" "hello" []
            emptyCache)
  = ([], Returned (JString "Hola")).
Proof.
  apply (translate_fallback_order examplePhrases "someone@example.com"
           "es-ES" "hello" [] emptyCache
           JUndefined (JString "Hola") (JString "Hello")).
  - discriminate.
  - intros l [<- | [<- | [<- | []]]]; now exists ordinalForm.
  - split; [reflexivity | discriminate].
  - split; [reflexivity | discriminate].
  - split; [reflexivity | discriminate].
  - intros l [<- | [<- | [<- | []]]]; reflexivity.
Defined.

(** X22. What a run of [translate] that returns has changed in the cache:
    every entry is as it was, or is an entry of the phrase key asked for,
    which now holds the truthy value the translations have for it in that
    locale.  No other key is touched, and no result of a phrase function or
    of a plural form is stored. *)
Theorem translate_writes (X : Phrases) (userEmail : string)
    (desiredLanguage phraseKey : string) (phraseParameters : list JSValue)
    (cache cache' : TranslationCache) (alerts : list string) (v : JSValue) :
  translate X userEmail desiredLanguage phraseKey phraseParameters cache
  = (alerts, Returned (cache', v)) ->
  writes X phraseKey cache cache'.
Proof.
  unfold translate.
  destruct (getTranslatedPhrase X _ phraseKey _ phraseParameters cache)
    as [a [[c found]|e]] eqn:Hrun; [|discriminate].
  apply getTranslatedPhrase_writes in Hrun.
  destruct found; try (now intros [= _ <- _]);
    destruct (IS_IN_PRODUCTION X || IS_IN_STAGING X);
    (discriminate || now intros [= _ <- _]).
Qed.

Lemma translate_writes_witness :
  writes examplePhrases "hello" emptyCache
    (cacheSet emptyCache "es" "hello" (JString "Hola")).
Proof.
  apply (translate_writes examplePhrases "someone@example.com" "es-ES"
           "hello" [] emptyCache _ [] (JString "Hola")).
  reflexivity.
Defined.

(** X23. The cache does not change what [translate] answers.  With a cache
    whose truthy entries are entries of the translations, for a phrase key
    that has no plural forms in the three locales a run may consult (the
    full locale, the two-letter abbreviation and the default locale), and
    with [Intl.PluralRules] accepting these three locales, a run gives the
    alerts and the value, or the error, of the run with no cache at all; and
    the cache it leaves has again only entries of the translations. *)
Theorem translate_cache_transparent (X : Phrases) (userEmail : string)
    (desiredLanguage phraseKey : string) (phraseParameters : list JSValue)
    (cache : TranslationCache) :
  let language :=
    if String.eqb desiredLanguage (LOCALE_ES_ES_ONFIDO X) then LOCALE_ES_ES X
    else desiredLanguage in
  let abbreviation := String.substring 0 2 desiredLanguage in
  coherent X cache ->
  (forall l, In l [language; abbreviation; LOCALE_DEFAULT X] ->
     exists select, newPluralRules X l = Returned select) ->
  (forall l o, In l [language; abbreviation; LOCALE_DEFAULT X] ->
     translations X l phraseKey <> PhraseValue (JObject o)) ->
  answer (translate X userEmail desiredLanguage phraseKey phraseParameters
            cache)
  = answer (translate X userEmail desiredLanguage phraseKey phraseParameters
              []) /\
  forall alerts cache' v,
    translate X userEmail desiredLanguage phraseKey phraseParameters cache
    = (alerts, Returned (cache', v)) ->
    coherent X cache'.
Proof.
  intros language abbreviation Hc Hrules Hobj. subst language abbreviation.
  unfold translate.
  destruct (getTranslatedPhrase_cached X
              (if String.eqb desiredLanguage (LOCALE_ES_ES_ONFIDO X)
               then LOCALE_ES_ES X else desiredLanguage)
              phraseKey (String.substring 0 2 desiredLanguage)
              phraseParameters cache Hc Hrules Hobj)
    as [(a & found & c & Hrun & Hc' & Hrun0) | (a & e & Hrun & Hrun0)];
    cbv zeta; rewrite Hrun, Hrun0.
  2:{ split; [reflexivity | discriminate]. }
  split.
  - destruct found; try reflexivity;
      now destruct (IS_IN_PRODUCTION X || IS_IN_STAGING X).
  - intros alerts cache' v.
    destruct found; try (now intros [= _ <- _]);
      destruct (IS_IN_PRODUCTION X || IS_IN_STAGING X);
      (discriminate || now intros [= _ <- _]).
Qed.

Lemma translate_cache_transparent_witness :
  answer (translate examplePhrases "someone@example.com" "es-ES" "hello" []
            (cacheSet emptyCache "es" "hello" (JString "Hola")))
  = answer (translate examplePhrases "someone@example.com" "es-ES" "hello" []
              []) /\
  forall alerts cache' v,
    translate examplePhrases "someone@example.com" "es-ES" "hello" []
      (cacheSet emptyCache "es" "hello" (JString "Hola"))
    = (alerts, Returned (cache', v)) ->
    coherent examplePhrases cache'.
Proof.
  apply (translate_cache_transparent examplePhrases "someone@example.com"
           "es-ES" "hello" []
           (cacheSet emptyCache "es" "hello" (JString "Hola"))).
  - apply (coherent_writes examplePhrases "hello" emptyCache).
    + apply coherent_fresh, emptyCache_fresh.
    + now apply writes_cacheSet.
  - intros l [<- | [<- | [<- | []]]]; now exists ordinalForm.
  - intros l o [<- | [<- | [<- | []]]]; discriminate.
Defined.

(** X24. A phrase with plural forms, asked for with a number: [translate]
    answers with the form that the ordinal rules of the full locale choose.
    When the phrase lacks that form, this is alerted and the form [other]
    is the answer, and a phrase with no form [other] either is handled as a
    missing translation.  The fallback locales are not looked at, and the
    cache is left as it was. *)
Theorem translate_plural (X : Phrases) (userEmail : string)
    (desiredLanguage phraseKey : string) (phraseParameters : list JSValue)
    (cache : TranslationCache) (forms : list (string * JSValue))
    (count : Z) (select : Z -> string) :
  let language :=
    if String.eqb desiredLanguage (LOCALE_ES_ES_ONFIDO X) then LOCALE_ES_ES X
    else desiredLanguage in
  translations X language phraseKey = PhraseValue (JObject forms) ->
  nth_error phraseParameters 0 = Some (JNumber count) ->
  newPluralRules X language = Returned select ->
  truthy (cacheGet cache language phraseKey) = false ->
  translate X userEmail desiredLanguage phraseKey phraseParameters cache =
  let chosen := getProp (select count) forms in
  let lacking :=
    ("Plural form " ++ select count ++ " not found for " ++ phraseKey ++
     " in " ++ language)%string in
  if truthy chosen then ([], Returned (cache, chosen))
  else
    match getProp "other" forms with
    | JNull | JUndefined =>
        if IS_IN_PRODUCTION X || IS_IN_STAGING X then
          ([ lacking;
             phraseKey ++ " was not found in the en locale" ]%string,
           Returned (cache,
                     JString (if includes userEmail (EXPENSIFY_EMAIL_DOMAIN X)
                              then MISSING_TRANSLATION X else phraseKey)))
        else
          ([ lacking ],
           Thrown (Error (phraseKey ++
                          " was not found in the default language")))
    | other => ([ lacking ], Returned (cache, other))
    end.
Proof.
  intros language Hforms Hcount Hrules Hcache. subst language.
  unfold translate, getTranslatedPhrase, phraseIn. cbv zeta.
  rewrite Hcache, Hrules, Hforms, Hcount. cbn [truthy].
  destruct (truthy (getProp (select count) forms)) eqn:Hchosen.
  - destruct (getProp (select count) forms);
      try discriminate Hchosen; reflexivity.
  - destruct (getProp "other" forms); try reflexivity;
      now destruct (IS_IN_PRODUCTION X || IS_IN_STAGING X).
Qed.

Lemma translate_plural_witness :
  translate examplePhrases "someone@example.com" "en" "place"
    [ JNumber 2 ] emptyCache
  = ([ "Plural form two not found for place in en"%string ],
     Returned (emptyCache, JString "a later place")).
Proof.
  apply (translate_plural examplePhrases "someone@example.com" "en" "place"
           [ JNumber 2 ] emptyCache
           [ ("one", JString "1st place");
             ("other", JString "a later place") ] 2%Z ordinalForm);
    reflexivity.
Defined.
